(** * AI for Grandmas: the generative card art engine and the share-image renderer

    A shallow embedding of [CardArt] (hash, seeded generator, palettes, the
    six pattern functions and [generate]) and of [CardImage] ([wrapText],
    the body layout of [generate], [shareCardImage]).

    Conventions of the embedding.
    - A JavaScript string is the list of its UTF-16 code units ([jsstring]);
      [charCodeAt] is list indexing and [+] is list concatenation.  Markup
      produced by the engine is plain ASCII and is kept as a [string].
    - A JavaScript Number that holds an integer is a [Z]; every integer
      computed by [hash] and by the generator stays far below 2^53, so the
      double arithmetic of the source is exact there.  Other Numbers are
      exact rationals ([Q]): the rounding of IEEE doubles is not modelled.
    - The closure returned by [seededRandom] owns one mutable variable [s];
      a pattern function that receives it is a program over one effect,
      "call rand" ([Prog]). *)

From Stdlib Require Import ZArith QArith Qround Qabs Lia List String Ascii.
From Stdlib Require Import DecimalString.
From stdpp Require Import base list.

Local Open Scope Z_scope.

(** ** Code units and 32-bit integers *)

Definition jsstring := list Z.

(** Code units of an ASCII literal. *)
Definition units (s : string) : jsstring :=
  map (fun a => Z.of_nat (nat_of_ascii a)) (list_ascii_of_string s).

(** ToInt32 of ECMAScript, on an integer-valued Number. *)
Definition ToInt32 (z : Z) : Z := (z + 2 ^ 31) mod 2 ^ 32 - 2 ^ 31.

(** [a << n] on Numbers: both the operand and the result are int32. *)
Definition shl32 (a n : Z) : Z := ToInt32 (Z.shiftl (ToInt32 a) n).

(** [x | 0]. *)
Definition or0 (x : Z) : Z := Z.lor (ToInt32 x) 0.

Module CardArt.

(** ** hash *)

(** Loop body: [h = ((h << 5) - h + str.charCodeAt(i)) | 0]. *)
Definition hash_step (h c : Z) : Z := or0 (shl32 h 5 - h + c).

Definition hash (str : jsstring) : Z := Z.abs (fold_left hash_step str 0).

(** The recurrence in the words of the specification: [h <- h*31 + charCode],
    wrapped to the signed 32-bit range, absolute value at the end. *)
Definition hash_spec (str : jsstring) : Z :=
  Z.abs (fold_left (fun h c => ToInt32 (h * 31 + c)) str 0).

(** [const seed = hash(title + type)] in [generate]. *)
Definition generate_seed (title type : jsstring) : Z := hash (title ++ type).

(** ** seededRandom *)

(** The assignment [s = (s * 16807 + 0) % 2147483647]; [%] truncates
    towards zero. *)
Definition lcg_next (s : Z) : Z := Z.rem (s * 16807 + 0) 2147483647.

(** The returned expression [(s - 1) / 2147483646]. *)
Definition lcg_out (s : Z) : Q := (inject_Z (s - 1) / inject_Z 2147483646)%Q.

(** One call of the closure: new value of [s] and the returned Number. *)
Definition rand_call (s : Z) : Q * Z :=
  let s' := lcg_next s in (lcg_out s', s').

(** Value of [s] after [n] calls of a closure made by [seededRandom seed]. *)
Fixpoint lcg_state (seed : Z) (n : nat) : Z :=
  match n with
  | O => seed
  | S n' => lcg_next (lcg_state seed n')
  end.

(** The Number returned by call number [n] (counting from 0). *)
Definition lcg_draw (seed : Z) (n : nat) : Q := lcg_out (lcg_state seed (S n)).

(** ** Numbers and strings of the markup *)

Local Coercion inject_Z : Z >-> Q.

(** [a > b] on Numbers. *)
Definition Qgtb (a b : Q) : bool := negb (Qle_bool a b).

(** [Math.floor]. *)
Definition Math_floor (x : Q) : Z := Qfloor x.

(** [Math.PI]: the exact value of the double 3.141592653589793. *)
Definition Math_PI : Q := 884279719003555 # 281474976710656.

(** The double quote character of the templates. *)
Definition dq : string := String (ascii_of_nat 34) EmptyString.

(** A template literal: its pieces, concatenated. *)
Definition tpl (pieces : list string) : string := String.concat "" pieces.

(** [${n}] for an integer-valued Number. *)
Definition num_str (n : Z) : string := NilZero.string_of_int (Z.to_int n).

Fixpoint zeros (n : nat) : string :=
  match n with
  | O => EmptyString
  | S n' => String "0" (zeros n')
  end.

(** [x.toFixed(f)] (ECMAScript, Number.prototype.toFixed): sign first, then
    the integer [n] nearest to [|x| * 10^f], the larger one on a tie, padded
    to [f + 1] digits and split by the decimal point.  The exponent form used
    from 10^21 on is not modelled: with sines and cosines in [-1, 1] every
    value the engine formats is below 1000. *)
Definition toFixed (x : Q) (f : nat) : string :=
  let sign := if Qgtb 0%Q x then "-"%string else ""%string in
  let n := Qfloor (Qabs x * inject_Z (10 ^ Z.of_nat f) + (1 # 2))%Q in
  let m := num_str n in
  let k := String.length m in
  let m := if (k <=? f)%nat then (zeros (f + 1 - k) ++ m)%string else m in
  let k := String.length m in
  if (f =? 0)%nat then (sign ++ m)%string
  else (sign ++ substring 0 (k - f) m ++ "." ++ substring (k - f) f m)%string.

(** [arr[i]] for an integer-valued Number [i]: [None] is [undefined]. *)
Definition arr_get {A : Type} (arr : list A) (i : Z) : option A :=
  if i <? 0 then None else arr !! Z.to_nat i.

(** [${v}] for a string or [undefined]. *)
Definition str_or_undefined (v : option string) : string :=
  match v with Some s => s | None => "undefined"%string end.

(** [a || b] on strings: [undefined] and the empty string are falsy. *)
Definition or_else (a b : option string) : option string :=
  match a with
  | Some EmptyString | None => b
  | Some _ => a
  end.

(** Number of positions of [s] at which [pat] starts. *)
Fixpoint occurrences (pat s : string) : nat :=
  match s with
  | EmptyString => O
  | String _ s' =>
      ((if String.prefix pat s then 1 else 0) + occurrences pat s')%nat
  end.

(** ** Palettes *)

Definition PALETTES : list (list string) :=
  [ ["#e8734a"; "#f4a261"; "#fef0e4"; "#264653"; "#2a9d8f"];
    ["#6b705c"; "#a5a58d"; "#ffe8d6"; "#cb997e"; "#ddbea9"];
    ["#bc6c25"; "#dda15e"; "#fefae0"; "#606c38"; "#283618"];
    ["#e07a5f"; "#f2cc8f"; "#f4f1de"; "#3d405b"; "#81b29a"];
    ["#d4a373"; "#faedcd"; "#fefae0"; "#e9edc9"; "#ccd5ae"];
    ["#b5838d"; "#e5989b"; "#ffb4a2"; "#ffcdb2"; "#6d6875"];
    ["#7f5539"; "#b08968"; "#ddb892"; "#e6ccb2"; "#ede0d4"];
    ["#588157"; "#a3b18a"; "#dad7cd"; "#344e41"; "#3a5a40"] ]%string.

(** [return PALETTES[h % PALETTES.length]]. *)
Definition getPalette (h : Z) : option (list string) :=
  arr_get PALETTES (Z.rem h (Z.of_nat (length PALETTES))).

(** ** Programs that call [rand] *)

Inductive Prog (A : Type) : Type :=
| Ret (a : A)
| Rand (k : Q -> Prog A).
Arguments Ret {A} a.
Arguments Rand {A} k.

Fixpoint bind {A B : Type} (m : Prog A) (f : A -> Prog B) : Prog B :=
  match m with
  | Ret a => f a
  | Rand k => Rand (fun u => bind (k u) f)
  end.

(** The call [rand()]. *)
Definition rand : Prog Q := Rand Ret.

Notation "x <- m ;; k" := (bind m (fun x => k))
  (at level 100, m at next level, right associativity).

(** Running a program against the closure variable [s]. *)
Fixpoint run {A : Type} (m : Prog A) (s : Z) : A * Z :=
  match m with
  | Ret a => (a, s)
  | Rand k => let '(u, s') := rand_call s in run (k u) s'
  end.

(** [for (let x = x0; cond(x); x += step) acc = body(x, acc)], at most
    [fuel] rounds. *)
Fixpoint for_loop {A : Type} (fuel : nat) (x : Z) (cond : Z -> bool) (step : Z)
    (body : Z -> A -> Prog A) (acc : A) : Prog A :=
  match fuel with
  | O => Ret acc
  | S fuel' =>
      if cond x
      then acc' <- body x acc ;; for_loop fuel' (x + step) cond step body acc'
      else Ret acc
  end.

(** [palette[Math.floor(rand() * palette.length)]], given the draw. *)
Definition pick (palette : list string) (u : Q) : string :=
  str_or_undefined
    (arr_get palette (Math_floor (u * inject_Z (Z.of_nat (length palette)))%Q)).

(** The closures alive in the page: one cell per closure made by
    [seededRandom], holding its variable [s]. *)
Abbreviation Store := (list Z).

(** ** The six pattern functions

    Each takes [(rand, palette, w, h)] in the source; the first argument is
    the effect of [Prog].  [Math.sin] and [Math.cos] are those of the
    platform: fixed functions on Numbers. *)

Section Patterns.

Variables Math_sin Math_cos : Q -> Q.

Local Open Scope Q_scope.

(** [<circle cx=".." cy=".." r=".." fill=".." opacity=".."/>], the template
    shared by the blob, dot grid and layered circle patterns. *)
Definition circle_tag (cx cy r : Q) (color : string) (opacity : Q) : string :=
  tpl [ "<circle cx="; dq; toFixed cx 1; dq; " cy="; dq; toFixed cy 1; dq;
        " r="; dq; toFixed r 1; dq; " fill="; dq; color; dq;
        " opacity="; dq; toFixed opacity 2; dq; "/>" ]%string.

(** Pattern 1: gradient blobs with soft circles. *)
Definition blob_count (u : Q) : Z := (3 + Math_floor (u * 3))%Z.

Definition blob_body (palette : list string) (w h : Z) (shapes : string)
    : Prog string :=
  u1 <- rand ;; u2 <- rand ;; u3 <- rand ;; u4 <- rand ;; u5 <- rand ;;
  let cx := u1 * w in
  let cy := u2 * h in
  let r := 40 + u3 * 80 in
  let color := pick palette u4 in
  let opacity := 0.3 + u5 * 0.4 in
  Ret (shapes ++ circle_tag cx cy r color opacity)%string.

Definition blobPattern (palette : list string) (w h : Z) : Prog string :=
  u <- rand ;;
  let count := blob_count u in
  for_loop (Z.to_nat count) 0 (fun i => i <? count)%Z 1
    (fun _ => blob_body palette w h) ""%string.

(** Pattern 2: rotated rectangles and triangles. *)
Definition geo_body (palette : list string) (w h : Z) (shapes : string)
    : Prog string :=
  u1 <- rand ;; u2 <- rand ;; u3 <- rand ;; u4 <- rand ;; u5 <- rand ;;
  u6 <- rand ;; u7 <- rand ;;
  let x := u1 * w in
  let y := u2 * h in
  let size := 30 + u3 * 60 in
  let color := pick palette u4 in
  let opacity := 0.25 + u5 * 0.4 in
  let rotation := u6 * 360 in
  let transform :=
    tpl [ " transform="; dq; "rotate("; toFixed rotation 0; " ";
          toFixed x 1; " "; toFixed y 1; ")"; dq ]%string in
  if Qgtb u7 0.5 then
    u8 <- rand ;;
    Ret (shapes ++
         tpl [ "<rect x="; dq; toFixed (x - size / 2) 1; dq;
               " y="; dq; toFixed (y - size / 2) 1; dq;
               " width="; dq; toFixed size 1; dq;
               " height="; dq; toFixed size 1; dq;
               " fill="; dq; color; dq;
               " opacity="; dq; toFixed opacity 2; dq; transform;
               " rx="; dq; toFixed (u8 * 8) 1; dq; "/>" ])%string
  else
    let x1 := x in let y1 := y - size / 2 in
    let x2 := x - size / 2 in let y2 := y + size / 2 in
    let x3 := x + size / 2 in let y3 := y + size / 2 in
    Ret (shapes ++
         tpl [ "<polygon points="; dq;
               toFixed x1 1; ","; toFixed y1 1; " ";
               toFixed x2 1; ","; toFixed y2 1; " ";
               toFixed x3 1; ","; toFixed y3 1; dq;
               " fill="; dq; color; dq;
               " opacity="; dq; toFixed opacity 2; dq; transform; "/>" ])%string.

Definition geoPattern (palette : list string) (w h : Z) : Prog string :=
  u <- rand ;;
  let count := (4 + Math_floor (u * 4))%Z in
  for_loop (Z.to_nat count) 0 (fun i => i <? count)%Z 1
    (fun _ => geo_body palette w h) ""%string.

(** Pattern 3: wave lines. *)
Definition wave_point (w : Z) (y amplitude frequency : Q) (x : Z) (d : string)
    : Prog string :=
  u <- rand ;;
  let offset := Math_sin ((x / w) * Math_PI * frequency * 2 + u * 6) * amplitude in
  Ret (d ++ tpl [ " L "; num_str x; " "; toFixed (y + offset) 1 ])%string.

Definition wave_body (palette : list string) (w h lineCount : Z) (i : Z)
    (shapes : string) : Prog string :=
  let y := (h / (lineCount + 1)%Z) * (i + 1)%Z in
  u1 <- rand ;; u2 <- rand ;; u3 <- rand ;; u4 <- rand ;;
  let amplitude := 15 + u1 * 30 in
  let frequency := 1 + u2 * 2 in
  let color := pick palette u3 in
  let strokeWidth := 2 + u4 * 4 in
  d <- for_loop (S (Z.to_nat w)) 0 (fun x => x <=? w)%Z 10
         (wave_point w y amplitude frequency)
         (tpl [ "M 0 "; toFixed y 1 ])%string ;;
  u5 <- rand ;;
  Ret (shapes ++
       tpl [ "<path d="; dq; d; dq; " fill="; dq; "none"; dq;
             " stroke="; dq; color; dq;
             " stroke-width="; dq; toFixed strokeWidth 1; dq;
             " opacity="; dq; toFixed (0.3 + u5 * 0.4) 2; dq;
             " stroke-linecap="; dq; "round"; dq; "/>" ])%string.

Definition wavePattern (palette : list string) (w h : Z) : Prog string :=
  u <- rand ;;
  let lineCount := (3 + Math_floor (u * 4))%Z in
  for_loop (Z.to_nat lineCount) 0 (fun i => i <? lineCount)%Z 1
    (wave_body palette w h lineCount) ""%string.

(** Pattern 4: dot grid.  The two loops advance by [spacing], which is at
    least 24 for every Number the generator can return, so [w] and [h]
    rounds are enough. *)
Definition dot_body (palette : list string) (jitter : Q) (x y : Z)
    (shapes : string) : Prog string :=
  u1 <- rand ;; u2 <- rand ;; u3 <- rand ;; u4 <- rand ;; u5 <- rand ;;
  let jx := x + (u1 - 0.5) * jitter in
  let jy := y + (u2 - 0.5) * jitter in
  let r := 2 + u3 * 6 in
  let color := pick palette u4 in
  let opacity := 0.2 + u5 * 0.5 in
  Ret (shapes ++ circle_tag jx jy r color opacity)%string.

(** The two nested loops of the dot grid, each with its bound on rounds. *)
Definition dot_loops (fuel_x fuel_y : nat) (palette : list string)
    (spacing : Z) (jitter : Q) (w h : Z) : Prog string :=
  for_loop fuel_x spacing (fun x => x <? w)%Z spacing
    (fun x shapes =>
       for_loop fuel_y spacing (fun y => y <? h)%Z spacing
         (fun y => dot_body palette jitter x y) shapes)
    ""%string.

Definition dotGridPattern (palette : list string) (w h : Z) : Prog string :=
  u1 <- rand ;; u2 <- rand ;;
  let spacing := (25 + Math_floor (u1 * 15))%Z in
  let jitter := 5 + u2 * 10 in
  dot_loops (Z.to_nat w) (Z.to_nat h) palette spacing jitter w h.

(** Pattern 5: abstract arcs. *)
Definition arc_body (palette : list string) (w h : Z) (shapes : string)
    : Prog string :=
  u1 <- rand ;; u2 <- rand ;; u3 <- rand ;; u4 <- rand ;; u5 <- rand ;;
  u6 <- rand ;; u7 <- rand ;;
  let cx := u1 * w in
  let cy := u2 * h in
  let r := 30 + u3 * 70 in
  let startAngle := u4 * 360 in
  let sweep := 60 + u5 * 180 in
  let color := pick palette u6 in
  let strokeWidth := 3 + u7 * 6 in
  let endAngle := startAngle + sweep in
  let x1 := cx + r * Math_cos ((startAngle * Math_PI) / 180) in
  let y1 := cy + r * Math_sin ((startAngle * Math_PI) / 180) in
  let x2 := cx + r * Math_cos ((endAngle * Math_PI) / 180) in
  let y2 := cy + r * Math_sin ((endAngle * Math_PI) / 180) in
  let largeArc := if Qgtb sweep 180 then 1%Z else 0%Z in
  u8 <- rand ;;
  Ret (shapes ++
       tpl [ "<path d="; dq; "M "; toFixed x1 1; " "; toFixed y1 1;
             " A "; toFixed r 1; " "; toFixed r 1; " 0 "; num_str largeArc;
             " 1 "; toFixed x2 1; " "; toFixed y2 1; dq;
             " fill="; dq; "none"; dq; " stroke="; dq; color; dq;
             " stroke-width="; dq; toFixed strokeWidth 1; dq;
             " opacity="; dq; toFixed (0.3 + u8 * 0.4) 2; dq;
             " stroke-linecap="; dq; "round"; dq; "/>" ])%string.

Definition arcPattern (palette : list string) (w h : Z) : Prog string :=
  u <- rand ;;
  let count := (4 + Math_floor (u * 4))%Z in
  for_loop (Z.to_nat count) 0 (fun i => i <? count)%Z 1
    (fun _ => arc_body palette w h) ""%string.

(** Pattern 6: layered circles (concentric, offset). *)
Definition ring_body (palette : list string) (cx cy maxR : Q) (rings : Z)
    (i : Z) (shapes : string) : Prog string :=
  let r := maxR * ((i + 1)%Z / (rings + 1)%Z) in
  u1 <- rand ;; u2 <- rand ;; u3 <- rand ;; u4 <- rand ;;
  let color := pick palette u1 in
  let opacity := 0.15 + u2 * 0.3 in
  let offsetX := (u3 - 0.5) * 10 in
  let offsetY := (u4 - 0.5) * 10 in
  Ret (shapes ++ circle_tag (cx + offsetX) (cy + offsetY) r color opacity)%string.

Definition group_body (palette : list string) (w h : Z) (shapes : string)
    : Prog string :=
  u1 <- rand ;; u2 <- rand ;; u3 <- rand ;; u4 <- rand ;;
  let cx := w * 0.2 + u1 * w * 0.6 in
  let cy := h * 0.2 + u2 * h * 0.6 in
  let rings := (3 + Math_floor (u3 * 3))%Z in
  let maxR := 40 + u4 * 50 in
  for_loop (S (Z.to_nat rings)) rings (fun i => 0 <=? i)%Z (-1)
    (ring_body palette cx cy maxR rings) shapes.

Definition layeredCirclePattern (palette : list string) (w h : Z) : Prog string :=
  u <- rand ;;
  let groups := (2 + Math_floor (u * 2))%Z in
  for_loop (Z.to_nat groups) 0 (fun g => g <? groups)%Z 1
    (fun _ => group_body palette w h) ""%string.

Definition PATTERNS : list (list string -> Z -> Z -> Prog string) :=
  [ blobPattern; geoPattern; wavePattern; dotGridPattern; arcPattern;
    layeredCirclePattern ].

(** ** generate *)

(** The markup that [generate] has put in [svg] when it reaches
    [// Layer patterns]. *)
Definition svg_head (w h seed gradAngle : Z) (bg1 bg2 : option string) : string :=
  tpl [ "<svg xmlns="; dq; "http://www.w3.org/2000/svg"; dq;
        " viewBox="; dq; "0 0 "; num_str w; " "; num_str h; dq;
        " preserveAspectRatio="; dq; "xMidYMid slice"; dq; ">";
        "<defs><linearGradient id="; dq; "bg-"; num_str seed; dq;
        " gradientTransform="; dq; "rotate("; num_str gradAngle; ")"; dq; ">";
        "<stop offset="; dq; "0%"; dq;
        " stop-color="; dq; str_or_undefined bg1; dq; "/>";
        "<stop offset="; dq; "100%"; dq;
        " stop-color="; dq; str_or_undefined bg2; dq; "/>";
        "</linearGradient></defs>";
        "<rect width="; dq; num_str w; dq; " height="; dq; num_str h; dq;
        " fill="; dq; "url(#bg-"; num_str seed; ")"; dq; "/>" ]%string.

(** The body of [generate] after [seed] and [palette] are bound.  [None] is
    a TypeError (indexing [undefined]); it takes a negative [seed], which
    [hash] never returns. *)
Definition generate_body (seed : Z) (palette : option (list string))
    : Prog (option string) :=
  let w := 400%Z in
  let h := 200%Z in
  let patternIdx1 := Z.rem seed (Z.of_nat (length PATTERNS)) in
  let patternIdx2 := Z.rem (seed + 3) (Z.of_nat (length PATTERNS)) in
  u <- rand ;;
  let useTwo := Qgtb u 0.4 in
  match palette with
  | None => Ret None
  | Some palette =>
      let bg1 := or_else (arr_get palette 2) (arr_get palette 0) in
      let bg2 := or_else (arr_get palette 3) (arr_get palette 1) in
      g <- rand ;;
      let gradAngle := Math_floor (g * 360) in
      let svg := svg_head w h seed gradAngle bg1 bg2 in
      match arr_get PATTERNS patternIdx1 with
      | None => Ret None
      | Some pattern1 =>
          shapes1 <- pattern1 palette w h ;;
          let svg := (svg ++ shapes1)%string in
          if useTwo then
            match arr_get PATTERNS patternIdx2 with
            | None => Ret None
            | Some pattern2 =>
                shapes2 <- pattern2 palette w h ;;
                Ret (Some (svg ++ shapes2 ++ "</svg>")%string)
            end
          else Ret (Some (svg ++ "</svg>")%string)
      end
  end.

(** [seededRandom(seed)]: a new closure, with [s = seed]. *)
Definition seededRandom (seed : Z) (st : Store) : nat * Store :=
  (length st, st ++ [seed]).

(** Running a program whose [rand] is the closure in cell [r]. *)
Fixpoint run_cell {A : Type} (r : nat) (m : Prog A) (st : Store) : A * Store :=
  match m with
  | Ret a => (a, st)
  | Rand k =>
      let '(u, s') := rand_call (st !!! r) in
      run_cell r (k u) (<[r := s']> st)
  end.

(** [generate(title, type)], called with both arguments, in a page whose
    closures are [st]. *)
Definition generate (title type : jsstring) (st : Store)
    : option string * Store :=
  let seed := generate_seed title type in
  let '(rand_ref, st) := seededRandom seed st in
  let palette := getPalette seed in
  run_cell rand_ref (generate_body seed palette) st.

End Patterns.

End CardArt.

Module CardImage.

Definition W : Z := 1080.
Definition H : Z := 1920.
Definition PAD : Z := 80.
Definition CONTENT_W : Z := W - PAD * 2.

(** ** Strings *)

(** A string used as a condition: the empty string is falsy. *)
Definition truthy (s : jsstring) : bool :=
  match s with
  | [] => false
  | _ :: _ => true
  end.

(** [a || b] for a property that may be missing. *)
Definition or_str (a : option jsstring) (b : jsstring) : jsstring :=
  match a with
  | Some s => if truthy s then s else b
  | None => b
  end.

(** [s.split(sep)] for a separator of one code unit. *)
Fixpoint split (sep : Z) (s : jsstring) : list jsstring :=
  match s with
  | [] => [[]]
  | c :: s' =>
      if c =? sep then [] :: split sep s'
      else match split sep s' with
           | word :: rest => (c :: word) :: rest
           | [] => [[c]]
           end
  end.

(** [words.join(' ')]. *)
Fixpoint join_space (words : list jsstring) : jsstring :=
  match words with
  | [] => []
  | [word] => word
  | word :: rest => word ++ 32 :: join_space rest
  end.

(** White space and line terminators of ECMAScript, the code units that
    [trim] strips. *)
Definition is_space (c : Z) : bool :=
  ((9 <=? c) && (c <=? 13)) || (c =? 32) || (c =? 160) || (c =? 5760)
  || ((8192 <=? c) && (c <=? 8202)) || (c =? 8232) || (c =? 8233)
  || (c =? 8239) || (c =? 8287) || (c =? 12288) || (c =? 65279).

Fixpoint trim_start (s : jsstring) : jsstring :=
  match s with
  | [] => []
  | c :: s' => if is_space c then trim_start s' else s
  end.

Definition trim (s : jsstring) : jsstring :=
  rev (trim_start (rev (trim_start s))).

(** [s.replace(/\n+/g, '\n')]: a line feed followed by a line feed is
    dropped, so every run of them leaves one. *)
Fixpoint collapse_newlines (s : jsstring) : jsstring :=
  match s with
  | [] => []
  | c :: s' =>
      if c =? 10 then
        match s' with
        | c' :: _ => if c' =? 10 then collapse_newlines s'
                     else 10 :: collapse_newlines s'
        | [] => [10]
        end
      else c :: collapse_newlines s'
  end.

(** [arr.forEach((x, i) => ...)] threading the state the callback mutates. *)
Fixpoint forEach {A St : Type} (f : St -> A -> nat -> St) (arr : list A)
    (i : nat) (st : St) : St :=
  match arr with
  | [] => st
  | x :: arr' => forEach f arr' (S i) (f st x i)
  end.

(** ** wrapText *)

Section Layout.

(** [ctx.measureText(text).width] under the font currently set. *)
Variable measureText : string -> jsstring -> Q.

(** The callback of [words.forEach] in [wrapText]; the state is
    [(lines, currentLine)]. *)
Definition wrap_word (measure : jsstring -> Q) (maxWidth : Q)
    (st : list jsstring * jsstring) (word : jsstring) (_ : nat)
    : list jsstring * jsstring :=
  let '(lines, currentLine) := st in
  let testLine :=
    if truthy currentLine then currentLine ++ units " " ++ word else word in
  if CardArt.Qgtb (measure testLine) maxWidth && truthy currentLine
  then (lines ++ [currentLine], word)
  else (lines, testLine).

Definition wrapText (measure : jsstring -> Q) (text : jsstring) (maxWidth : Q)
    : list jsstring :=
  let words := split 32 text in
  let '(lines, currentLine) :=
    forEach (wrap_word measure maxWidth) words 0%nat ([], []) in
  if truthy currentLine then lines ++ [currentLine] else lines.

(** What the specification asks of a line, relative to the words of the
    text: a line is good when it joins a run of consecutive words and
    either fits or is a single word. *)
Definition good_line (measure : jsstring -> Q) (maxWidth : Q)
    (words : list jsstring) (line : jsstring) : Prop :=
  exists before run after : list jsstring,
    words = before ++ run ++ after
    /\ run <> []
    /\ line = join_space run
    /\ ((measure line <= maxWidth)%Q \/ length run = 1%nat).

(** The line being built joins the words at the end of those seen. *)
Definition good_current (measure : jsstring -> Q) (maxWidth : Q)
    (seen : list jsstring) (currentLine : jsstring) : Prop :=
  currentLine = []
  \/ exists before run : list jsstring,
       seen = before ++ run
       /\ run <> []
       /\ currentLine = join_space run
       /\ ((measure currentLine <= maxWidth)%Q \/ length run = 1%nat).

Definition wrap_inv (measure : jsstring -> Q) (maxWidth : Q)
    (seen : list jsstring) (st : list jsstring * jsstring) : Prop :=
  Forall (good_line measure maxWidth seen) (fst st)
  /\ good_current measure maxWidth seen (snd st).

(** ** generate: the text of the card *)

Record Card := {
  title : option jsstring;
  body : option jsstring;
  type : option jsstring;
  emoji : option jsstring;
  label : option jsstring;
  source_name : option jsstring
}.

(** What [generate] sends to the canvas, as far as text goes. *)
Inductive draw : Type :=
| fillText (text : jsstring) (x y : Z).

Definition font_title : string := "bold 56px Inter, -apple-system, sans-serif".
Definition font_body : string := "400 38px Georgia, serif".

Definition cardPad : Z := 60.
Definition cardTop : Z := 140 + 100.
Definition tagH : Z := 52.
Definition titleLineHeight : Z := 72.
Definition bodyLineHeight : Z := 58.
Definition maxBodyLines : nat := 16.

Definition titleLines (card : Card) : list jsstring :=
  wrapText (measureText font_title) (or_str (title card) [])
    (inject_Z (CONTENT_W - cardPad * 2)).

(** The callback of [bodyParagraphs.forEach]; the state is [bodyLines]. *)
Definition body_paragraph (bodyLines : list jsstring) (para : jsstring)
    (pi : nat) : list jsstring :=
  let bodyLines :=
    if (0 <? pi)%nat && truthy (trim para) then bodyLines ++ [[]]
    else bodyLines in
  let wrapped :=
    wrapText (measureText font_body) (trim para)
      (inject_Z (CONTENT_W - cardPad * 2)) in
  forEach (fun lines line _ => lines ++ [line]) wrapped 0%nat bodyLines.

Definition bodyLines (card : Card) : list jsstring :=
  let bodyText := collapse_newlines (or_str (body card) []) in
  let bodyParagraphs := split 10 bodyText in
  forEach body_paragraph bodyParagraphs 0%nat [].

(** [bodyLines.slice(0, maxBodyLines)]. *)
Definition visibleBodyLines (card : Card) : list jsstring :=
  take maxBodyLines (bodyLines card).

Definition titleY : Z := cardTop + cardPad + (tagH + 36).

Definition bodyY (card : Card) : Z :=
  titleY + (Z.of_nat (length (titleLines card)) * titleLineHeight + 40).

Definition sourceText (card : Card) : jsstring :=
  match source_name card with
  | Some name => if truthy name then [8212; 32] ++ name else []
  | None => []
  end.

Definition sourceY (card : Card) : Z :=
  bodyY card + (Z.of_nat (length (visibleBodyLines card)) * bodyLineHeight + 50).

Definition cardHeight (card : Card) : Z :=
  let contentY := sourceY card in
  let contentY := if truthy (sourceText card) then contentY + 50 else contentY in
  let contentY := contentY + cardPad in
  contentY - cardTop.

(** [titleLines.forEach((line, i) => ctx.fillText(...))]. *)
Definition draw_title (card : Card) : list draw :=
  forEach (fun ops line i =>
             ops ++ [fillText line (PAD + cardPad)
                       (titleY + (Z.of_nat i + 1) * titleLineHeight)])
    (titleLines card) 0%nat [].

(** [visibleBodyLines.forEach((line, i) => ...)]: an empty line returns
    before [fillText]. *)
Definition draw_body (card : Card) : list draw :=
  forEach (fun ops line i =>
             if truthy line
             then ops ++ [fillText line (PAD + cardPad)
                            (bodyY card + (Z.of_nat i + 1) * bodyLineHeight)]
             else ops)
    (visibleBodyLines card) 0%nat [].

Definition draw_source (card : Card) : list draw :=
  if truthy (sourceText card)
  then [fillText (sourceText card) (PAD + cardPad) (sourceY card + 36)]
  else [].

(** The text painted inside the card, in paint order. *)
Definition generate (card : Card) : list draw :=
  draw_title card ++ draw_body card ++ draw_source card.

End Layout.

(** ** shareCardImage *)

(** How an awaited call ends: it returns, or throws an error with a name. *)
Inductive outcome (A : Type) : Type :=
| Returned (a : A)
| Thrown (name : string).
Arguments Returned {A} a.
Arguments Thrown {A} name.

(** The platform under one call of [shareCardImage]: what each call it
    makes does. *)
Record Platform := {
  generate_result : outcome unit;   (* await generate(card) *)
  fetch_result : outcome unit;      (* fetch(dataUrl), res.blob(), new File *)
  share_available : bool;           (* navigator.share && navigator.canShare
                                       && navigator.canShare({ files }) *)
  share_result : outcome unit;      (* await navigator.share({...}) *)
  download_result : outcome unit    (* the anchor element and its click *)
}.

Inductive event : Type :=
| share_called
| download_clicked (filename : jsstring).

(** The fallback, from [const a = document.createElement('a')] on. *)
Definition download (env : Platform) (card : Card) (log : list event)
    : outcome unit * list event :=
  match download_result env with
  | Returned _ =>
      (Returned tt,
       log ++ [download_clicked
                 (units "ai-for-grandmas-" ++ or_str (type card) (units "card")
                  ++ units ".png")])
  | Thrown e => (Thrown e, log)
  end.

Definition shareCardImage (env : Platform) (card : Card)
    : outcome unit * list event :=
  match generate_result env with
  | Thrown e => (Thrown e, [])
  | Returned _ =>
      match fetch_result env with
      | Thrown e => (Thrown e, [])
      | Returned _ =>
          if share_available env then
            match share_result env with
            | Returned _ => (Returned tt, [share_called])
            | Thrown name =>
                if String.eqb name "AbortError"
                then (Returned tt, [share_called])
                else download env card [share_called]
            end
          else download env card []
      end
  end.

End CardImage.

(** ** Concrete inputs and outputs used below *)

Module Samples.

Import CardArt.

(** The circle that the blob pattern emits when every draw is
    [-1/2147483646]. *)
Definition zero_seed_circle : string :=
  tpl [ "<circle cx="; dq; "-0.0"; dq; " cy="; dq; "-0.0"; dq;
        " r="; dq; "40.0"; dq; " fill="; dq; "undefined"; dq;
        " opacity="; dq; "0.30"; dq; "/>" ]%string.

(** A measurer that charges one unit per code unit. *)
Definition unit_measure (text : jsstring) : Q := inject_Z (Z.of_nat (length text)).

Definition font_measure (font : string) (text : jsstring) : Q :=
  (inject_Z 40 * unit_measure text)%Q.

Import CardImage.

Definition quick_card : Card :=
  {| title := Some (units "Hello");
     body := Some (units "one" ++ [10; 10] ++ units "two");
     type := Some (units "quick_bite");
     emoji := None;
     label := None;
     source_name := None |}.

(** Twelve one-letter paragraphs: 23 body entries, gaps included. *)
Definition long_card : Card :=
  {| title := Some (units "Hello");
     body := Some (units "a" ++ concat (map (fun c => [10; c])
                     [98; 99; 100; 101; 102; 103; 104; 105; 106; 107; 108]));
     type := Some (units "quick_bite");
     emoji := None;
     label := None;
     source_name := None |}.

(** Sharing is offered and the user's device refuses it. *)
Definition refusing_platform : Platform :=
  {| generate_result := Returned tt;
     fetch_result := Returned tt;
     share_available := true;
     share_result := Thrown "NotAllowedError";
     download_result := Returned tt |}.

(** Sharing is offered and the user dismisses the sheet. *)
Definition cancelling_platform : Platform :=
  {| generate_result := Returned tt;
     fetch_result := Returned tt;
     share_available := true;
     share_result := Thrown "AbortError";
     download_result := Returned tt |}.

End Samples.

(** ** What the markup is made of *)

Module Markup.

Import CardArt.

(** A seed or state from which every later draw is in [0, 1). *)
Definition live (s : Z) : Prop := 0 <= s /\ ~ (2147483647 | s).

(** A [<circle .../>] as the blob, dot grid and layered circle patterns
    write it, filled with a colour of the palette. *)
Definition circle_of (palette : list string) (piece : string) : Prop :=
  exists (cx cy r : Q) (color : string) (opacity : Q),
    piece = circle_tag cx cy r color opacity /\ In color palette.

(** The text starts with the given opening. *)
Definition starts_with (opening text : string) : Prop :=
  String.prefix opening text = true.

(** The text is the given pieces written one after the other. *)
Definition written (pieces : list string) : string := String.concat "" pieces.

End Markup.

(** ** What the layout keeps *)

Module Layout.

Import CardImage.

(** The text with its spaces taken out. *)
Definition unspaced (text : jsstring) : jsstring :=
  List.filter (fun c => negb (c =? 32)) text.

(** While [wrapText] runs: the lines pushed are not empty, and lines and
    current line together hold the letters of the words seen. *)
Definition wrap_keeps (seen : list jsstring) (st : list jsstring * jsstring)
    : Prop :=
  Forall (fun line => line <> []) (fst st)
  /\ unspaced (concat (fst st) ++ snd st) = unspaced (concat seen).

(** No blank entry is last, and none is followed by another blank. *)
Fixpoint gaps_closed (lines : list jsstring) : Prop :=
  match lines with
  | [] => True
  | line :: rest =>
      (line = [] -> match rest with
                    | next :: _ => next <> []
                    | [] => False
                    end)
      /\ gaps_closed rest
  end.

(** [const footerY = H - 120], the baseline of the footer line. *)
Definition footerY : Z := H - 120.

End Layout.

(** * The card swipe app *)

Module App.

Import CardImage.

(** ** escapeHtml *)

(** [str.replace(/c/g, by)] for a pattern of one code unit [c] and a
    replacement without [$]: every occurrence, left to right, the
    replacement not scanned again. *)
Definition replace_all (c : Z) (by_ : jsstring) (str : jsstring) : jsstring :=
  flat_map (fun x => if x =? c then by_ else [x]) str.

(** [escapeHtml(str)]; [None] stands for a missing ([undefined] or [null])
    argument. *)
Definition escapeHtml (str : option jsstring) : jsstring :=
  match str with
  | None => []
  | Some str =>
      if truthy str then
        replace_all 34 (units "&quot;")
          (replace_all 62 (units "&gt;")
             (replace_all 60 (units "&lt;")
                (replace_all 38 (units "&amp;") str)))
      else []
  end.

(** What the four passes do to one code unit, as one table. *)
Definition escape_unit (c : Z) : jsstring :=
  if c =? 38 then units "&amp;"
  else if c =? 60 then units "&lt;"
  else if c =? 62 then units "&gt;"
  else if c =? 34 then units "&quot;"
  else [c].

(** ** Cards and what the app keeps in localStorage *)

(** A card of the deck; [None] is a missing or [null] property. *)
Record card := {
  id : jsstring;
  type : option jsstring;
  emoji : option jsstring;
  label : option jsstring;
  title : option jsstring;
  body : option jsstring;
  source_url : option jsstring;
  source_name : option jsstring;
  image_url : option jsstring
}.

(** An entry of [savedCards]: the properties [saveCard] copies (all but
    [image_url]) and [saved_at], the instant of saving in milliseconds. *)
Record saved_card := {
  copy : card;
  saved_at : Z
}.

(** The object fetched from [data/latest.json], as far as the app reads
    it. *)
Record payload := {
  cards : option (list card)
}.

(** The object stored under [afg_data].  A date string [YYYY-MM-DD] is
    kept as the number of its UTC day. *)
Record Data := {
  lastVisit : option Z;
  streak : option Z;
  totalSwiped : option Z;
  visitCount : option Z;
  hasVisited : option bool;
  savedCards : option (list saved_card);
  cachedCards : option payload
}.

Definition no_data : Data :=
  {| lastVisit := None; streak := None; totalSwiped := None;
     visitCount := None; hasVisited := None; savedCards := None;
     cachedCards := None |}.

(** The item [afg_data] of localStorage: [None] when it is missing or does
    not parse to an object. *)
Abbreviation Storage := (option Data).

(** [JSON.parse(localStorage.getItem(STORAGE_KEY)) || {}], and [{}] when
    parsing throws. *)
Definition getData (ls : Storage) : Data :=
  match ls with
  | Some data => data
  | None => no_data
  end.

(** [a.key] after [{ ...current, ...obj }]. *)
Definition spread {A : Type} (current obj : option A) : option A :=
  match obj with
  | Some v => Some v
  | None => current
  end.

(** [setData(obj)]: the keys of [obj] over those stored. *)
Definition setData (obj : Data) (ls : Storage) : Storage :=
  let current := getData ls in
  Some {| lastVisit := spread (lastVisit current) (lastVisit obj);
          streak := spread (streak current) (streak obj);
          totalSwiped := spread (totalSwiped current) (totalSwiped obj);
          visitCount := spread (visitCount current) (visitCount obj);
          hasVisited := spread (hasVisited current) (hasVisited obj);
          savedCards := spread (savedCards current) (savedCards obj);
          cachedCards := spread (cachedCards current) (cachedCards obj) |}.

(** [n || fallback] for a Number that may be missing: 0 is falsy. *)
Definition num_or (n : option Z) (fallback : Z) : Z :=
  match n with
  | Some v => if v =? 0 then fallback else v
  | None => fallback
  end.

(** ** Streak, swipes and visits *)

(** The UTC day of an instant given in milliseconds: the day that
    [toISOString().slice(0, 10)] names. *)
Definition utc_day (instant : Z) : Z := instant / 86400000.

(** [updateStreak()]; [now1] is the instant read by [new Date()] and
    [now2] the one read by [Date.now()]. *)
Definition updateStreak (now1 now2 : Z) (ls : Storage) : Z * Storage :=
  let data := getData ls in
  let today := utc_day now1 in
  if bool_decide (lastVisit data = Some today) then (num_or (streak data) 1, ls)
  else
    let yesterday := utc_day (now2 - 86400000) in
    let streak :=
      if bool_decide (lastVisit data = Some yesterday)
      then num_or (streak data) 1 + 1
      else 1 in
    (streak,
     setData {| lastVisit := Some today; streak := Some streak;
                totalSwiped := None; visitCount := None; hasVisited := None;
                savedCards := None; cachedCards := None |} ls).

Definition trackSwipe (ls : Storage) : Storage :=
  let data := getData ls in
  setData {| lastVisit := None; streak := None;
             totalSwiped := Some (num_or (totalSwiped data) 0 + 1);
             visitCount := None; hasVisited := None;
             savedCards := None; cachedCards := None |} ls.

Definition getVisitCount (ls : Storage) : Z :=
  num_or (visitCount (getData ls)) 0.

Definition incrementVisitCount (ls : Storage) : Z * Storage :=
  let data := getData ls in
  let count := num_or (visitCount data) 0 + 1 in
  (count,
   setData {| lastVisit := None; streak := None; totalSwiped := None;
              visitCount := Some count; hasVisited := None;
              savedCards := None; cachedCards := None |} ls).

(** ** Saved cards *)

(** [data.savedCards || []]. *)
Definition getSavedCards (ls : Storage) : list saved_card :=
  match savedCards (getData ls) with
  | Some saved => saved
  | None => []
  end.

(** [saveCard(card)] at instant [now]; the result is what it returns. *)
Definition saveCard (item : card) (now : Z) (ls : Storage) : bool * Storage :=
  let saved := getSavedCards ls in
  match List.find (fun c => bool_decide (id (copy c) = id item)) saved with
  | Some _ => (false, ls)
  | None =>
      let entry :=
        {| copy := {| id := id item; type := type item; emoji := emoji item;
                      label := label item; title := title item;
                      body := body item; source_url := source_url item;
                      source_name := source_name item; image_url := None |};
           saved_at := now |} in
      (true,
       setData {| lastVisit := None; streak := None; totalSwiped := None;
                  visitCount := None; hasVisited := None;
                  savedCards := Some (saved ++ [entry]);
                  cachedCards := None |} ls)
  end.

(** ** Loading the deck *)

Definition getDemoCards : list card :=
  [ {| id := units "holy-shit-demo"; type := Some (units "holy_shit");
       emoji := Some [55357; 56613]; label := Some (units "HOLY SHIT");
       title := Some (units "ChatGPT Now Makes Full Apps From a Single Sentence");
       body := Some (units "OpenAI just shipped something wild, honey. You describe what you want and it builds the whole thing. Frontend, backend, database."
                     ++ [10; 10]
                     ++ units "Is it perfect? Hell no. But it's a working prototype in 30 seconds that would've taken a developer a week.");
       source_url := Some (units "https://openai.com");
       source_name := Some (units "OpenAI Blog"); image_url := None |};
    {| id := units "quick-bite-1"; type := Some (units "quick_bite");
       emoji := Some [9889]; label := Some (units "QUICK BITE");
       title := Some (units "Midjourney V7 Actually Understands Hands Now");
       body := Some (units "After three years of giving everyone six fingers, Midjourney finally figured out human anatomy."
                     ++ [10; 10]
                     ++ units "V7 renders hands, feet, and text with actual accuracy. It only took them roughly a billion images to learn what every kindergartner already knows.");
       source_url := Some (units "https://midjourney.com");
       source_name := Some (units "Midjourney"); image_url := None |};
    {| id := units "tool-drop-demo"; type := Some (units "tool_drop");
       emoji := Some [55357; 56615]; label := Some (units "TOOL DROP");
       title := Some (units "Kling 2.0 " ++ [8212]
                      ++ units " Video Generation That Doesn't Look Drunk");
       body := Some (units "Kling's new model generates 10-second clips with consistent physics. Objects don't melt, people don't grow extra limbs."
                     ++ [10; 10]
                     ++ units "Try this: upload a product photo and ask for a "
                     ++ [34] ++ units "cinematic reveal." ++ [34]
                     ++ units " The results are genuinely usable for social media.");
       source_url := Some (units "https://kling.ai");
       source_name := Some (units "Kling AI"); image_url := None |};
    {| id := units "try-this-demo"; type := Some (units "try_this");
       emoji := Some [55356; 57263]; label := Some (units "TRY THIS");
       title := Some (units "The " ++ [34] ++ units "Explain It to a 5-Year-Old"
                      ++ [34] ++ units " Prompt Hack");
       body := Some (units "Next time an AI gives you a wall of jargon, add this:"
                     ++ [10; 10] ++ [34]
                     ++ units "Now explain it like I'm five, then like I'm a professional, then give me the one sentence that matters."
                     ++ [34] ++ [10; 10]
                     ++ units "Three levels of understanding in one response. You're welcome, honey.");
       source_url := None; source_name := None; image_url := None |};
    {| id := units "cookie-demo"; type := Some (units "cookie");
       emoji := Some [55356; 57194]; label := Some (units "COOKIE");
       title := Some (units "Grandma's Closing Thought");
       body := Some (units "The best AI tool is the one that gives you more time to do the thing you actually love. Everything else is just noise, sweetheart.");
       source_url := None; source_name := None; image_url := None |} ].

(** How [fetch(DATA_URL)] and the decoding of its body end. *)
Inductive fetched : Type :=
| fetch_throws               (* fetch, or response.json(), or data.cards throws *)
| fetch_not_ok               (* a response with ok = false *)
| fetch_ok (data : payload). (* the decoded object *)

(** [loadCards()]: the deck, the value left in [isOffline], the storage. *)
Definition loadCards (net : fetched) (ls : Storage)
    : list card * bool * Storage :=
  let '(deck, isOffline, ls) :=
    match net with
    | fetch_ok data =>
        (cards data, false,
         setData {| lastVisit := None; streak := None; totalSwiped := None;
                    visitCount := None; hasVisited := None; savedCards := None;
                    cachedCards := Some data |} ls)
    | fetch_not_ok => (None, false, ls)
    | fetch_throws => (None, true, ls)
    end in
  let '(deck, isOffline) :=
    match deck with
    | Some deck => (Some deck, isOffline)
    | None =>
        match cachedCards (getData ls) with
        | Some stored =>
            match cards stored with
            | Some deck => (Some deck, true)
            | None => (None, isOffline)
            end
        | None => (None, isOffline)
        end
    end in
  let deck :=
    match deck with
    | Some (c :: rest) => c :: rest
    | Some [] | None => getDemoCards
    end in
  (deck, isOffline, ls).

(** ** What the storage is expected to hold *)

(** A stored streak, when there is one, is at least 1. *)
Definition streak_ok (ls : Storage) : Prop :=
  match streak (getData ls) with
  | Some k => 1 <= k
  | None => True
  end.




(** The ids of the saved cards, in order. *)
Definition saved_ids (ls : Storage) : list jsstring :=
  map (fun c => id (copy c)) (getSavedCards ls).

End App.

(** * The service worker *)

Module ServiceWorker.

Definition CACHE_NAME : string := "afg-v5".

(** A GET request, by the parts of its URL that the worker reads. *)
Record request := {
  href : string;
  hostname : string;
  pathname : string
}.

Record response := {
  status : Z;
  content_type : option string;
  text : string
}.

(** [response.ok]. *)
Definition ok (r : response) : bool := (200 <=? status r) && (status r <=? 299).

(** One cache: the responses put in it, the latest first; a request is
    matched by its URL. *)
Abbreviation Cache := (list (string * response)).

(** The caches of the origin, in the order of their creation. *)
Abbreviation CacheStorage := (list (string * Cache)).

(** [cache.match(request)]. *)
Fixpoint cache_match (req : request) (cache : Cache) : option response :=
  match cache with
  | [] => None
  | (url, r) :: rest =>
      if String.eqb url (href req) then Some r else cache_match req rest
  end.

(** [caches.match(request)]: the first cache, in creation order, that
    holds the request. *)
Fixpoint caches_match (req : request) (st : CacheStorage) : option response :=
  match st with
  | [] => None
  | (_, cache) :: rest =>
      match cache_match req cache with
      | Some r => Some r
      | None => caches_match req rest
      end
  end.

(** [caches.open(name)] followed by [cache.put(request, response)]: the
    cache is created behind the others when it does not exist, and the
    response takes the place of any stored for the same URL. *)
Fixpoint open_put (name : string) (req : request) (r : response)
    (st : CacheStorage) : CacheStorage :=
  match st with
  | [] => [(name, [(href req, r)])]
  | (n, cache) :: rest =>
      if String.eqb n name then (n, (href req, r) :: cache) :: rest
      else (n, cache) :: open_put name req r rest
  end.

(** How [fetch(request)] ends. *)
Inductive fetching : Type :=
| rejects
| resolves (r : response).


(** [new Response('{"cards":[]}', ...)]. *)
Definition empty_deck_response : response :=
  {| status := 200; content_type := Some "application/json"%string;
     text := String.concat ""
               ["{"; CardArt.dq; "cards"; CardArt.dq; ":[]}"]%string |}.

(** The [try] block shared by both strategies, once [fetch] has resolved:
    the response is returned and, when it is ok, also put in the cache.
    Opening the cache and the put, which the source does not await, are
    taken to succeed. *)
Definition fetch_and_store (req : request) (r : response) (st : CacheStorage)
    : response * CacheStorage :=
  (r, if ok r then open_put CACHE_NAME req r st else st).


Definition networkFirst (req : request) (net : fetching) (st : CacheStorage)
    : response * CacheStorage :=
  match net with
  | resolves r => fetch_and_store req r st
  | rejects =>
      match caches_match req st with
      | Some cached => (cached, st)
      | None => (empty_deck_response, st)
      end
  end.

(** The [activate] handler: every cache whose name is not [CACHE_NAME] is
    deleted. *)
Definition activate (st : CacheStorage) : CacheStorage :=
  List.filter (fun entry => String.eqb (fst entry) CACHE_NAME) st.

End ServiceWorker.

(** * Properties *)

Import CardArt.

(** ** 32-bit wrap-around *)

Lemma ToInt32_mod (z : Z) : ToInt32 z mod 2 ^ 32 = z mod 2 ^ 32.
Proof.
  unfold ToInt32.
  rewrite Zminus_mod, Zmod_mod, <- Zminus_mod.
  f_equal. lia.
Qed.

Lemma ToInt32_congr (x y : Z) :
  x mod 2 ^ 32 = y mod 2 ^ 32 -> ToInt32 x = ToInt32 y.
Proof.
  intros E. unfold ToInt32.
  rewrite (Zplus_mod x), (Zplus_mod y), E. reflexivity.
Qed.

Lemma ToInt32_range (z : Z) : - 2 ^ 31 <= ToInt32 z < 2 ^ 31.
Proof.
  unfold ToInt32.
  pose proof (Z.mod_pos_bound (z + 2 ^ 31) (2 ^ 32) ltac:(lia)). lia.
Qed.

Lemma or0_ToInt32 (x : Z) : or0 x = ToInt32 x.
Proof. unfold or0. apply Z.lor_0_r. Qed.

(** The shift-and-subtract of the source is multiplication by 31. *)
Lemma hash_step_31 (h c : Z) : hash_step h c = ToInt32 (h * 31 + c).
Proof.
  unfold hash_step, shl32. rewrite or0_ToInt32.
  apply ToInt32_congr.
  rewrite Z.shiftl_mul_pow2 by lia.
  rewrite Zplus_mod, Zminus_mod, ToInt32_mod.
  rewrite Zmult_mod, ToInt32_mod, <- Zmult_mod.
  rewrite <- Zminus_mod, <- Zplus_mod.
  f_equal. lia.
Qed.

Lemma fold_hash_step (str : jsstring) (h : Z) :
  fold_left hash_step str h = fold_left (fun h c => ToInt32 (h * 31 + c)) str h.
Proof.
  revert h. induction str as [|c str IH]; intros h; simpl.
  - reflexivity.
  - rewrite hash_step_31. apply IH.
Qed.

Lemma hash_eq_spec (str : jsstring) : hash str = hash_spec str.
Proof. unfold hash, hash_spec. now rewrite fold_hash_step. Qed.

Lemma hash_nonneg (str : jsstring) : 0 <= hash str.
Proof. unfold hash. apply Z.abs_nonneg. Qed.

Lemma hash_le (str : jsstring) : hash str <= 2 ^ 31.
Proof.
  unfold hash.
  assert (R : - 2 ^ 31 <= fold_left hash_step str 0 < 2 ^ 31).
  { destruct str as [|c str] using rev_ind.
    - simpl. lia.
    - rewrite fold_left_app. simpl. rewrite hash_step_31. apply ToInt32_range. }
  lia.
Qed.

(** C2. The seed of [generate] is the rolling hash [h <- h*31 + charCode]
    over the code units of [title + category], started at 0, wrapped to the
    signed 32-bit range at every step, with the absolute value taken at the
    end; it is non-negative, and pairs with equal concatenations have equal
    seeds. *)
Theorem seed_is_rolling_hash (title category : jsstring) :
  generate_seed title category = hash_spec (title ++ category)
  /\ 0 <= generate_seed title category
  /\ forall title' category' : jsstring,
       title' ++ category' = title ++ category ->
       generate_seed title' category' = generate_seed title category.
Proof.
  unfold generate_seed. split; [apply hash_eq_spec|].
  split; [apply hash_nonneg|].
  intros title' category' E. now rewrite E.
Qed.

Lemma seed_is_rolling_hash_witness :
  generate_seed [97; 98] [99] = 96354
  /\ generate_seed [97] [98; 99] = generate_seed [97; 98] [99].
Proof.
  destruct (seed_is_rolling_hash [97; 98] [99]) as (E & _ & S).
  split.
  - rewrite E. reflexivity.
  - apply S. reflexivity.
Defined.

(** ** The generator *)

Section Generator.

Local Abbreviation m := 2147483647.

Lemma gcd_m_16807 : Z.gcd m 16807 = 1.
Proof. reflexivity. Qed.

(** On a non-negative state, [%] is the mathematical remainder. *)
Lemma lcg_next_mod (s : Z) : 0 <= s -> lcg_next s = (s * 16807) mod m.
Proof.
  intros Hs. unfold lcg_next. rewrite Z.add_0_r.
  apply Z.rem_mod_nonneg; lia.
Qed.

Lemma lcg_next_range (s : Z) : 0 <= s -> 0 <= lcg_next s < m.
Proof.
  intros Hs. rewrite lcg_next_mod by assumption.
  apply Z.mod_pos_bound. reflexivity.
Qed.

Lemma lcg_next_divisible (s : Z) : (m | s) -> lcg_next s = 0.
Proof.
  intros [k ->]. unfold lcg_next. rewrite Z.add_0_r.
  replace (k * m * 16807) with (k * 16807 * m) by ring.
  apply Z.rem_mul. discriminate.
Qed.

Lemma lcg_next_not_divisible (s : Z) :
  0 <= s -> ~ (m | s) -> 1 <= lcg_next s < m /\ ~ (m | lcg_next s).
Proof.
  intros Hs Hnd.
  pose proof (lcg_next_range s Hs) as R.
  assert (N : lcg_next s <> 0).
  { rewrite lcg_next_mod by assumption. intros E.
    apply Hnd. apply Z.mod_divide in E; [|discriminate].
    apply (Z.gauss m 16807 s); [|apply gcd_m_16807].
    now rewrite Z.mul_comm. }
  split; [lia|].
  intros [k E]. destruct (Z.eq_dec k 0); nia.
Qed.

Lemma lcg_state_nonneg (seed : Z) (n : nat) : 0 <= seed -> 0 <= lcg_state seed n.
Proof.
  intros Hs. destruct n; simpl; [assumption|].
  induction n; simpl.
  - now apply lcg_next_range.
  - apply lcg_next_range. exact IHn.
Qed.

Lemma lcg_state_not_divisible (seed : Z) (n : nat) :
  0 <= seed -> ~ (m | seed) ->
  1 <= lcg_state seed (S n) < m /\ ~ (m | lcg_state seed (S n)).
Proof.
  intros Hs Hnd. induction n; simpl.
  - now apply lcg_next_not_divisible.
  - destruct IHn as [R D]. apply lcg_next_not_divisible; [simpl in R; lia|exact D].
Qed.

Lemma lcg_state_divisible (seed : Z) (n : nat) :
  (m | seed) -> lcg_state seed (S n) = 0.
Proof.
  intros D. induction n; simpl.
  - now apply lcg_next_divisible.
  - simpl in IHn. rewrite IHn. reflexivity.
Qed.

Lemma lcg_out_frac (s : Z) : (lcg_out s == (s - 1) # 2147483646)%Q.
Proof. unfold lcg_out, Qeq. simpl. lia. Qed.

Lemma lcg_out_unit (s : Z) : 1 <= s < m -> (0 <= lcg_out s)%Q /\ (lcg_out s < 1)%Q.
Proof.
  intros R. rewrite lcg_out_frac.
  unfold Qle, Qlt. simpl. lia.
Qed.

End Generator.

(** C10. From a seed that [2147483647] does not divide, the variable [s]
    of the closure is in [1, 2147483646] after every call and every returned
    Number is in [0, 1); from a seed it divides (0 is one, the hash of the
    empty string), [s] is 0 after every call and every returned Number is
    [(0 - 1) / 2147483646], below zero.  Seeds are the non-negative values
    of [hash]. *)
Theorem lcg_state_invariant (seed : Z) (n : nat) :
  0 <= seed ->
  (~ (2147483647 | seed) ->
     1 <= lcg_state seed (S n) <= 2147483646
     /\ (0 <= lcg_draw seed n)%Q /\ (lcg_draw seed n < 1)%Q)
  /\ ((2147483647 | seed) ->
     lcg_state seed (S n) = 0
     /\ (lcg_draw seed n == (inject_Z (0 - 1) / inject_Z 2147483646))%Q
     /\ (lcg_draw seed n < 0)%Q).
Proof.
  intros Hs. split.
  - intros Hnd.
    destruct (lcg_state_not_divisible seed n Hs Hnd) as [R _].
    split; [lia|]. now apply lcg_out_unit.
  - intros Hd. unfold lcg_draw.
    rewrite (lcg_state_divisible seed n Hd).
    split; [reflexivity|]. split; [reflexivity|].
    unfold Qlt. simpl. lia.
Qed.

Lemma lcg_state_invariant_witness :
  (1 <= lcg_state 42 3 <= 2147483646 /\ (lcg_draw 42 2 < 1)%Q)
  /\ (hash [] = 0 /\ lcg_state (hash []) 3 = 0 /\ (lcg_draw (hash []) 2 < 0)%Q).
Proof.
  split.
  - destruct (lcg_state_invariant 42 2 ltac:(lia)) as [Good _].
    destruct Good as (R & _ & U).
    + intros [k E]. lia.
    + split; assumption.
  - destruct (lcg_state_invariant (hash []) 2 ltac:(vm_compute; discriminate))
      as [_ Bad].
    destruct Bad as (Z0 & _ & Neg).
    + exists 0. reflexivity.
    + split; [reflexivity|]. split; assumption.
Defined.

(** C3, at the seeds where it fails.  The update and the returned
    expression are those of the claim, but a closure seeded with 0 stays at
    [s = 0] and returns a Number below zero on every call.  0 is the seed of
    the empty title and category, and also of the title [tooflgc] in the
    category [quick_bite]; the title [qwmzvtf] there has seed 2147483647,
    which falls to 0 at the first call. *)
Theorem seededRandom_zero_seed (n : nat) :
  generate_seed [] [] = 0
  /\ generate_seed (units "tooflgc") (units "quick_bite") = 0
  /\ generate_seed (units "qwmzvtf") (units "quick_bite") = 2147483647
  /\ rand_call 0 = (lcg_out 0, 0)
  /\ rand_call 2147483647 = (lcg_out 0, 0)
  /\ (lcg_draw 0 n == -1 # 2147483646)%Q
  /\ ~ (0 <= lcg_draw 0 n)%Q.
Proof.
  do 5 (split; [reflexivity|]).
  assert (E : lcg_draw 0 n = lcg_out 0).
  { unfold lcg_draw. f_equal. apply lcg_state_divisible. exists 0. reflexivity. }
  rewrite E. split.
  - reflexivity.
  - apply Qlt_not_le. reflexivity.
Qed.

(** ** Programs and the two ways of running them *)

Lemma run_bind {A B : Type} (p : Prog A) (f : A -> Prog B) (s : Z) :
  run (bind p f) s = run (f (fst (run p s))) (snd (run p s)).
Proof.
  revert s. induction p as [a|k IH]; intros s; simpl.
  - reflexivity.
  - apply IH.
Qed.

Lemma run_rand (s : Z) : run rand s = (lcg_out (lcg_next s), lcg_next s).
Proof. reflexivity. Qed.

(** A program run through the closure in cell [r] computes what it
    computes on the value of that cell, and writes no other cell. *)
Lemma run_cell_run {A : Type} (r : nat) (p : Prog A) (st : Store) :
  (r < length st)%nat ->
  run_cell r p st
  = (fst (run p (st !!! r)), <[r := snd (run p (st !!! r))]> st).
Proof.
  revert st. induction p as [a|k IH]; intros st Hr; simpl.
  - f_equal. symmetry. apply list_insert_id.
    now apply list_lookup_lookup_total_lt.
  - rewrite IH by now rewrite length_insert.
    rewrite list_lookup_total_insert_eq by assumption.
    now rewrite list_insert_insert_eq.
Qed.

Lemma arr_get_lookup {A : Type} (arr : list A) (i : Z) :
  0 <= i -> arr_get arr i = arr !! Z.to_nat i.
Proof.
  intros Hi. unfold arr_get.
  destruct (Z.ltb_spec i 0); [lia|reflexivity].
Qed.

Lemma getPalette_mod (h : Z) :
  0 <= h -> getPalette h = PALETTES !! Z.to_nat (h mod 8).
Proof.
  intros Hh. unfold getPalette.
  change (Z.of_nat (length PALETTES)) with 8.
  rewrite Z.rem_mod_nonneg by lia.
  apply arr_get_lookup.
  apply Z.mod_pos_bound. lia.
Qed.

Lemma getPalette_defined (h : Z) : 0 <= h -> is_Some (getPalette h).
Proof.
  intros Hh. rewrite getPalette_mod by assumption.
  apply lookup_lt_is_Some.
  change (length PALETTES) with 8%nat.
  pose proof (Z.mod_pos_bound h 8 ltac:(lia)). lia.
Qed.

(** Range of the count of a pattern whose source reads
    [base + Math.floor(rand() * span)], for a draw in [0, 1). *)
Lemma floor_scale_range (u : Q) (span : Z) :
  0 < span -> (0 <= u)%Q -> (u < 1)%Q ->
  0 <= Math_floor (u * inject_Z span)%Q < span.
Proof.
  intros Hspan H0 H1. unfold Math_floor.
  assert (P : (0 <= u * inject_Z span)%Q).
  { apply Qmult_le_0_compat; [assumption|].
    unfold Qle. simpl. lia. }
  assert (L : (u * inject_Z span < inject_Z span)%Q).
  { destruct u as [a b]. unfold Qlt in *. simpl in *. nia. }
  split.
  - change 0 with (Qfloor (inject_Z 0)). now apply Qfloor_resp_le.
  - apply Z.lt_nge. intros G.
    apply (Qlt_not_le _ _ L).
    eapply Qle_trans; [|apply Qfloor_le].
    rewrite <- Zle_Qle. exact G.
Qed.

Lemma blob_count_range (u : Q) :
  (0 <= u)%Q -> (u < 1)%Q -> 3 <= blob_count u <= 5.
Proof.
  intros H0 H1. unfold blob_count.
  pose proof (floor_scale_range u 3 ltac:(lia) H0 H1) as R.
  change (inject_Z 3) with 3%Q in R. lia.
Qed.

(** *** Loops stop on their own

    A loop whose condition forces a measure to drop at every round gives
    the same result with any larger bound on rounds: the bound written in
    the definitions is never what stops it. *)

Lemma for_loop_run_ext {A : Type} (cond : Z -> bool) (step : Z)
    (body1 body2 : Z -> A -> Prog A) :
  (forall x acc s, run (body1 x acc) s = run (body2 x acc) s) ->
  forall (fuel : nat) (x : Z) (acc : A) (s : Z),
    run (for_loop fuel x cond step body1 acc) s
    = run (for_loop fuel x cond step body2 acc) s.
Proof.
  intros Hbody. induction fuel as [|fuel IH]; intros x acc s; simpl.
  - reflexivity.
  - destruct (cond x); [|reflexivity].
    rewrite !run_bind, Hbody. apply IH.
Qed.

Lemma for_loop_fuel {A : Type} (mu : Z -> nat) (cond : Z -> bool) (step : Z)
    (body : Z -> A -> Prog A) :
  (forall x, cond x = true -> (mu (x + step)%Z < mu x)%nat) ->
  forall (fuel extra : nat) (x : Z) (acc : A) (s : Z),
    (mu x <= fuel)%nat ->
    run (for_loop (fuel + extra) x cond step body acc) s
    = run (for_loop fuel x cond step body acc) s.
Proof.
  intros Hmu. induction fuel as [|fuel IH]; intros extra x acc s Hle.
  - destruct (cond x) eqn:C.
    + apply Hmu in C. lia.
    + destruct extra; simpl; [reflexivity|]. now rewrite C.
  - simpl. destruct (cond x) eqn:C; [|reflexivity].
    rewrite !run_bind. apply IH.
    apply Hmu in C. lia.
Qed.

(** The step of the dot grid is at least 24 for every Number the
    generator returns. *)
Lemma dot_spacing_lower (s : Z) :
  0 <= s -> 24 <= 25 + Math_floor (lcg_out (lcg_next s) * 15)%Q.
Proof.
  intros Hs. pose proof (lcg_next_range s Hs) as R.
  assert (L : (inject_Z (-1) <= lcg_out (lcg_next s) * 15)%Q).
  { rewrite lcg_out_frac. unfold Qle. simpl. lia. }
  apply Qfloor_resp_le in L. rewrite Qfloor_Z in L.
  unfold Math_floor. lia.
Qed.

Lemma dot_loops_fuel (extra_x extra_y : nat) (palette : list string)
    (spacing : Z) (jitter : Q) (w h s : Z) :
  1 <= spacing ->
  run (dot_loops (Z.to_nat w + extra_x) (Z.to_nat h + extra_y)
         palette spacing jitter w h) s
  = run (dot_loops (Z.to_nat w) (Z.to_nat h) palette spacing jitter w h) s.
Proof.
  intros Hsp. unfold dot_loops.
  rewrite (for_loop_fuel (fun x => Z.to_nat (w - x))).
  - apply for_loop_run_ext. intros x acc s'.
    apply (for_loop_fuel (fun y => Z.to_nat (h - y))).
    + intros y C. apply Z.ltb_lt in C. lia.
    + lia.
  - intros x C. apply Z.ltb_lt in C. lia.
  - lia.
Qed.

Section Engine.

Variables Math_sin Math_cos : Q -> Q.

Local Abbreviation PATTERNS := (PATTERNS Math_sin Math_cos).
Local Abbreviation generate_body := (generate_body Math_sin Math_cos).
Local Abbreviation generate := (generate Math_sin Math_cos).

(** [generate] in a page with closures [st]: the markup is that of the body
    run from [s = seed], and the page gains one cell. *)
Lemma generate_run (title type : jsstring) (st : Store) :
  let seed := generate_seed title type in
  let body := generate_body seed (getPalette seed) in
  generate title type st = (fst (run body seed), st ++ [snd (run body seed)]).
Proof.
  intros seed body. unfold generate, seededRandom.
  fold seed. fold body.
  rewrite run_cell_run by (rewrite length_app; simpl; lia).
  rewrite list_lookup_total_middle by reflexivity.
  f_equal.
  rewrite <- (Nat.add_0_r (length st)).
  now rewrite insert_app_r.
Qed.

Lemma PATTERNS_defined (i : Z) : is_Some (PATTERNS !! Z.to_nat (i mod 6)).
Proof.
  apply lookup_lt_is_Some.
  change (length PATTERNS) with 6%nat.
  pose proof (Z.mod_pos_bound i 6 ltac:(lia)). lia.
Qed.

(** The body of [generate], one step at a time, for a seed that [hash]
    can return. *)
Lemma generate_body_run (seed : Z) (palette : list string)
    (pattern1 pattern2 : list string -> Z -> Z -> Prog string) :
  0 <= seed ->
  PATTERNS !! Z.to_nat (seed mod 6) = Some pattern1 ->
  PATTERNS !! Z.to_nat ((seed + 3) mod 6) = Some pattern2 ->
  let s1 := lcg_next seed in
  let s2 := lcg_next s1 in
  let head :=
    svg_head 400 200 seed (Math_floor (lcg_out s2 * 360)%Q)
      (or_else (arr_get palette 2) (arr_get palette 0))
      (or_else (arr_get palette 3) (arr_get palette 1)) in
  let first := run (pattern1 palette 400 200) s2 in
  fst (run (generate_body seed (Some palette)) seed)
  = Some ((head ++ fst first)
          ++ (if Qgtb (lcg_out s1) 0.4
              then fst (run (pattern2 palette 400 200) (snd first)) ++ "</svg>"
              else "</svg>"))%string.
Proof.
  intros Hs P1 P2 s1 s2 head first.
  unfold CardArt.generate_body.
  change (Z.of_nat (length PATTERNS)) with 6.
  rewrite !Z.rem_mod_nonneg by lia.
  rewrite !arr_get_lookup by (apply Z.mod_pos_bound; lia).
  rewrite P1, P2.
  rewrite run_bind, run_rand. cbn [fst snd]. fold s1.
  rewrite run_bind, run_rand. cbn [fst snd]. fold s2.
  rewrite run_bind. fold first.
  destruct (Qgtb (lcg_out s1) 0.4).
  - rewrite run_bind. reflexivity.
  - reflexivity.
Qed.

(** C1. Two invocations of [generate] on the same title and category return
    the same markup, whatever closures earlier calls have left in the page:
    the result depends on the pair alone. *)
Theorem generate_deterministic (title category : jsstring) (st st' : Store) :
  fst (generate title category st) = fst (generate title category st')
  /\ fst (generate title category (snd (generate title category st)))
     = fst (generate title category st).
Proof.
  split; now rewrite !generate_run.
Qed.

(** C4. The two candidate patterns are those at [seed mod patternCount]
    and [(seed + 3) mod patternCount]; the first Number drawn from the
    closure decides, being above 0.4 or not, whether the second is layered
    over the first; the first pattern draws from the state left by that
    draw and the gradient-angle draw, the second from the state the first
    one leaves. *)
Theorem generate_layers (title category : jsstring) (st : Store) :
  let seed := generate_seed title category in
  let patternCount := Z.of_nat (length PATTERNS) in
  let s1 := lcg_next seed in
  let s2 := lcg_next s1 in
  exists (palette : list string)
         (pattern1 pattern2 : list string -> Z -> Z -> Prog string),
    getPalette seed = Some palette
    /\ PATTERNS !! Z.to_nat (seed mod patternCount) = Some pattern1
    /\ PATTERNS !! Z.to_nat ((seed + 3) mod patternCount) = Some pattern2
    /\ let head :=
         svg_head 400 200 seed (Math_floor (lcg_out s2 * 360)%Q)
           (or_else (arr_get palette 2) (arr_get palette 0))
           (or_else (arr_get palette 3) (arr_get palette 1)) in
       let first := run (pattern1 palette 400 200) s2 in
       fst (generate title category st)
       = Some ((head ++ fst first)
               ++ (if Qgtb (lcg_out s1) 0.4
                   then fst (run (pattern2 palette 400 200) (snd first))
                        ++ "</svg>"
                   else "</svg>"))%string.
Proof.
  intros seed patternCount s1 s2.
  assert (Hs : 0 <= seed) by apply hash_nonneg.
  destruct (getPalette_defined seed Hs) as [palette Hp].
  destruct (PATTERNS_defined seed) as [pattern1 H1].
  destruct (PATTERNS_defined (seed + 3)) as [pattern2 H2].
  exists palette, pattern1, pattern2.
  repeat split; try assumption.
  intros head first. rewrite generate_run. cbn [fst]. fold seed.
  rewrite Hp. now apply generate_body_run.
Qed.

(** C5. The palette of [generate] is the entry of [PALETTES] at
    [seed mod PALETTES.length], which exists; the markup is that of the
    body run with this palette, so a pair always gets the same one. *)
Theorem generate_palette (title category : jsstring) (st : Store) :
  let seed := generate_seed title category in
  let paletteIndex := Z.to_nat (seed mod Z.of_nat (length PALETTES)) in
  getPalette seed = PALETTES !! paletteIndex
  /\ is_Some (PALETTES !! paletteIndex)
  /\ fst (generate title category st)
     = fst (run (generate_body seed (PALETTES !! paletteIndex)) seed).
Proof.
  intros seed paletteIndex.
  assert (Hs : 0 <= seed) by apply hash_nonneg.
  assert (E : getPalette seed = PALETTES !! paletteIndex)
    by now apply getPalette_mod.
  split; [exact E|]. split.
  - rewrite <- E. now apply getPalette_defined.
  - rewrite generate_run. cbn [fst]. fold seed. now rewrite E.
Qed.

(** C9, at a seed where it fails.  For the title [tooflgc] in the
    category [quick_bite] (and for the empty title and category) the seed is
    0, the pattern chosen is the blob pattern, it starts from [s = 0], its
    count is [3 + Math.floor(-3/2147483646) = 2], and the markup of
    [generate] holds two circles, filled with [undefined]. *)
Theorem blobPattern_zero_seed (st : Store) :
  generate_seed (units "tooflgc") (units "quick_bite") = 0
  /\ generate_seed [] [] = 0
  /\ PATTERNS !! Z.to_nat (0 mod 6) = Some blobPattern
  /\ lcg_next (lcg_next 0) = 0
  /\ blob_count (fst (rand_call 0)) = 2
  /\ (forall palette : list string,
        getPalette 0 = Some palette ->
        fst (run (blobPattern palette 400 200) 0)
        = (Samples.zero_seed_circle ++ Samples.zero_seed_circle)%string)
  /\ (forall markup : string,
        fst (generate (units "tooflgc") (units "quick_bite") st) = Some markup ->
        occurrences "<circle" markup = 2%nat).
Proof.
  do 5 (split; [reflexivity|]). split.
  - intros palette E. injection E as <-. vm_compute. reflexivity.
  - intros markup E. rewrite generate_run in E. cbn [fst] in E.
    vm_compute in E. injection E as <-. vm_compute. reflexivity.
Qed.

End Engine.

Lemma blobPattern_zero_seed_witness :
  occurrences "<circle" (Samples.zero_seed_circle ++ Samples.zero_seed_circle)
  = 2%nat
  /\ fst (run (blobPattern
                 ["#e8734a"; "#f4a261"; "#fef0e4"; "#264653"; "#2a9d8f"]%string
                 400 200) 0)
     = (Samples.zero_seed_circle ++ Samples.zero_seed_circle)%string.
Proof.
  split; [reflexivity|].
  destruct (blobPattern_zero_seed (fun x => x) (fun x => x) [])
    as (_ & _ & _ & _ & _ & B & _).
  apply B. reflexivity.
Defined.

(** ** wrapText *)

Import CardImage.

Lemma join_space_snoc (run : list jsstring) (word : jsstring) :
  run <> [] -> join_space (run ++ [word]) = join_space run ++ 32 :: word.
Proof.
  induction run as [|w run IH]; intros Hne; [congruence|].
  destruct run as [|w' run].
  - reflexivity.
  - change (join_space ((w :: w' :: run) ++ [word]))
      with (w ++ 32 :: join_space ((w' :: run) ++ [word])).
    rewrite IH by discriminate.
    change (join_space (w :: w' :: run)) with (w ++ 32 :: join_space (w' :: run)).
    now rewrite <- app_assoc.
Qed.

Lemma Qgtb_false (a b : Q) : Qgtb a b = false -> (a <= b)%Q.
Proof.
  unfold Qgtb. intros E. apply Qle_bool_iff.
  now destruct (Qle_bool a b).
Qed.

Section WrapText.

Variable measure : jsstring -> Q.
Variable maxWidth : Q.

Local Abbreviation good_line := (good_line measure maxWidth).
Local Abbreviation good_current := (good_current measure maxWidth).
Local Abbreviation wrap_inv := (wrap_inv measure maxWidth).

Lemma good_line_more (seen : list jsstring) (word line : jsstring) :
  good_line seen line -> good_line (seen ++ [word]) line.
Proof.
  intros (before & run & after & E & Hne & J & Wd).
  exists before, run, (after ++ [word]).
  split; [|auto]. rewrite E. now rewrite <- !app_assoc.
Qed.

Lemma good_current_line (seen : list jsstring) (currentLine : jsstring) :
  truthy currentLine = true ->
  good_current seen currentLine -> good_line seen currentLine.
Proof.
  intros T [->|(before & run & E & Hne & J & Wd)]; [discriminate|].
  exists before, run, [].
  split; [|auto]. rewrite E. now rewrite app_nil_r.
Qed.

Lemma good_current_single (seen : list jsstring) (word : jsstring) :
  good_current (seen ++ [word]) word.
Proof.
  right. exists seen, [word]. repeat split; [discriminate|now right].
Qed.

Lemma wrap_word_inv (seen : list jsstring) (st : list jsstring * jsstring)
    (word : jsstring) (i : nat) :
  wrap_inv seen st -> wrap_inv (seen ++ [word]) (wrap_word measure maxWidth st word i).
Proof.
  destruct st as [lines currentLine]. intros [HL HC]. simpl in HL, HC.
  unfold wrap_word.
  assert (HL' : Forall (good_line (seen ++ [word])) lines).
  { eapply Forall_impl; [exact HL|]. intros line. apply good_line_more. }
  destruct (truthy currentLine) eqn:T.
  - destruct (Qgtb (measure (currentLine ++ units " " ++ word)) maxWidth) eqn:G;
      simpl; split; simpl.
    + apply Forall_app. split; [exact HL'|].
      constructor; [|constructor].
      apply good_line_more. now apply good_current_line.
    + apply good_current_single.
    + exact HL'.
    + destruct HC as [->|(before & run & E & Hne & J & _)]; [discriminate|].
      right. exists before, (run ++ [word]).
      split; [rewrite E; now rewrite app_assoc|].
      split; [now destruct run|].
      split.
      * rewrite join_space_snoc by assumption. now rewrite J.
      * left. now apply Qgtb_false.
  - rewrite andb_false_r. split; simpl; [exact HL'|].
    apply good_current_single.
Qed.

Lemma forEach_wrap_inv (todo seen : list jsstring)
    (st : list jsstring * jsstring) (i : nat) :
  wrap_inv seen st ->
  wrap_inv (seen ++ todo) (forEach (wrap_word measure maxWidth) todo i st).
Proof.
  revert seen st i. induction todo as [|word todo IH]; intros seen st i Hinv; simpl.
  - now rewrite app_nil_r.
  - replace (seen ++ word :: todo) with ((seen ++ [word]) ++ todo)
      by now rewrite <- app_assoc.
    apply IH. now apply wrap_word_inv.
Qed.

Lemma wrapText_good (text : jsstring) :
  Forall (good_line (split 32 text)) (wrapText measure text maxWidth).
Proof.
  unfold wrapText.
  pose proof (forEach_wrap_inv (split 32 text) [] ([], []) 0%nat) as Hinv.
  destruct (forEach _ _ _ _) as [lines currentLine].
  destruct Hinv as [HL HC]; [split; [constructor|now left]|].
  simpl in HL, HC.
  destruct (truthy currentLine) eqn:T; [|exact HL].
  apply Forall_app. split; [exact HL|].
  constructor; [|constructor]. now apply good_current_line.
Qed.

End WrapText.

(** C6. Every line of [wrapText] is the join, with single spaces, of a run
    of consecutive words of the text, so no word is broken; and the line
    measures at most the maximum width unless the run is one word. *)
Theorem wrapText_lines (measure : jsstring -> Q) (text : jsstring)
    (maxWidth : Q) (line : jsstring) :
  In line (wrapText measure text maxWidth) ->
  exists before run after : list jsstring,
    split 32 text = before ++ run ++ after
    /\ run <> []
    /\ line = join_space run
    /\ ((measure line <= maxWidth)%Q \/ length run = 1%nat).
Proof.
  intros Hin.
  pose proof (wrapText_good measure maxWidth text) as G.
  rewrite Forall_forall in G. apply G.
  now apply list_elem_of_In.
Qed.

Lemma wrapText_lines_witness :
  wrapText Samples.unit_measure (units "ab cd efghi j") 5
  = [units "ab cd"; units "efghi"; units "j"]
  /\ exists before run after : list jsstring,
       split 32 (units "ab cd efghi j") = before ++ run ++ after
       /\ run <> []
       /\ units "ab cd" = join_space run
       /\ ((Samples.unit_measure (units "ab cd") <= 5)%Q \/ length run = 1%nat).
Proof.
  split; [reflexivity|].
  apply (wrapText_lines Samples.unit_measure (units "ab cd efghi j") 5).
  left. reflexivity.
Defined.

(** ** The body of the card image *)

Lemma forEach_paint (paint : jsstring -> nat -> draw) (lines : list jsstring)
    (i0 : nat) (ops : list draw) :
  let painted :=
    forEach (fun ops line i => if truthy line then ops ++ [paint line i] else ops)
      lines i0 ops in
  (length painted <= length ops + length lines)%nat
  /\ forall op : draw,
       In op painted
       <-> In op ops
           \/ exists (j : nat) (line : jsstring),
                lines !! j = Some line /\ line <> [] /\ op = paint line (i0 + j)%nat.
Proof.
  revert i0 ops. induction lines as [|l lines IH]; intros i0 ops; simpl.
  - split; [lia|]. intros op. split; [now left|].
    intros [H|(j & line & H & _)]; [assumption|discriminate].
  - specialize (IH (S i0) (if truthy l then ops ++ [paint l i0] else ops)).
    destruct IH as [Len Mem]. split.
    + destruct (truthy l); [rewrite length_app in Len; simpl in Len|]; lia.
    + intros op. rewrite Mem. clear Mem Len. split.
      * intros [H|(j & line & Hj & Hne & ->)].
        -- destruct l as [|c l]; simpl in H; [now left|].
           apply in_app_iff in H as [H|[<-|[]]]; [now left|].
           right. exists 0%nat, (c :: l).
           rewrite Nat.add_0_r. repeat split. discriminate.
        -- right. exists (S j), line.
           rewrite Nat.add_succ_r. now repeat split.
      * intros [H|([|j] & line & Hj & Hne & ->)].
        -- left. destruct (truthy l); [apply in_app_iff|]; auto.
        -- simpl in Hj. injection Hj as ->. left.
           destruct line; [congruence|]. simpl.
           apply in_app_iff. right. left. now rewrite Nat.add_0_r.
        -- right. exists j, line. rewrite Nat.add_succ_r. now repeat split.
Qed.

(** C7. At most 16 body lines are painted.  What is painted is, for each
    of the first 16 entries of the wrapped body that is not a blank
    paragraph gap, that entry unchanged on its own row; entries from the
    17th on leave nothing on the canvas, and a body with more entries than
    the cap keeps exactly 16 of them. *)
Theorem body_lines_capped (measureText : string -> jsstring -> Q) (card : Card) :
  maxBodyLines = 16%nat
  /\ generate measureText card
     = draw_title measureText card ++ draw_body measureText card
       ++ draw_source measureText card
  /\ (length (draw_body measureText card) <= maxBodyLines)%nat
  /\ (forall op : draw,
        In op (draw_body measureText card)
        <-> exists (i : nat) (line : jsstring),
              (i < maxBodyLines)%nat
              /\ bodyLines measureText card !! i = Some line
              /\ line <> []
              /\ op = fillText line (PAD + cardPad)
                        (bodyY measureText card
                         + (Z.of_nat i + 1) * bodyLineHeight))
  /\ ((maxBodyLines < length (bodyLines measureText card))%nat ->
        length (visibleBodyLines measureText card) = maxBodyLines
        /\ bodyLines measureText card
           = visibleBodyLines measureText card
             ++ drop maxBodyLines (bodyLines measureText card)).
Proof.
  split; [reflexivity|].
  pose proof (forEach_paint
                (fun line i =>
                   fillText line (PAD + cardPad)
                     (bodyY measureText card + (Z.of_nat i + 1) * bodyLineHeight))
                (visibleBodyLines measureText card) 0 []) as [Len Mem].
  fold (draw_body measureText card) in Len, Mem.
  split; [reflexivity|]. split; [|split].
  - simpl in Len. unfold visibleBodyLines in Len.
    rewrite length_take in Len. lia.
  - intros op. rewrite Mem. unfold visibleBodyLines. split.
    + intros [[]|(j & line & Hj & Hne & ->)].
      apply lookup_take_Some in Hj as [Hj Hlt].
      exists j, line. now repeat split.
    + intros (i & line & Hlt & Hi & Hne & ->).
      right. exists i, line. split; [|now split].
      apply lookup_take_Some. now split.
  - intros Hlong. unfold visibleBodyLines. split.
    + apply length_take_le. lia.
    + symmetry. apply firstn_skipn.
Qed.

Lemma body_lines_capped_witness :
  length (bodyLines Samples.font_measure Samples.long_card) = 23%nat
  /\ length (visibleBodyLines Samples.font_measure Samples.long_card) = 16%nat
  /\ length (draw_body Samples.font_measure Samples.long_card) = 8%nat
  /\ draw_body Samples.font_measure Samples.quick_card
     = [fillText (units "one") 140 558; fillText (units "two") 140 674].
Proof.
  split; [reflexivity|].
  destruct (body_lines_capped Samples.font_measure Samples.long_card)
    as (_ & _ & _ & _ & Cut).
  destruct Cut as [Len _]; [vm_compute; lia|].
  split; [exact Len|]. split; reflexivity.
Defined.

(** ** shareCardImage *)

(** C8 as stated fails: on a platform whose share call throws
    [NotAllowedError], [shareCardImage] returns normally after clicking the
    download link; the error does not reach the caller. *)
Lemma share_error_not_propagated :
  share_result Samples.refusing_platform = Thrown "NotAllowedError"
  /\ shareCardImage Samples.refusing_platform Samples.quick_card
     = (Returned tt,
        [share_called; download_clicked (units "ai-for-grandmas-quick_bite.png")])
  /\ fst (shareCardImage Samples.refusing_platform Samples.quick_card)
     <> Thrown "NotAllowedError".
Proof.
  split; [reflexivity|]. split; [reflexivity|]. discriminate.
Qed.

(** C8, amended.  When the share call throws, it has been called once.
    An [AbortError] ends [shareCardImage] normally with nothing else done.
    Any other error is caught and the download fallback runs: the caller
    sees the outcome of the download, which is a normal return after the
    click, or the error of the download itself. *)
Theorem share_error_falls_back (env : Platform) (card : Card) (name : string) :
  generate_result env = Returned tt ->
  fetch_result env = Returned tt ->
  share_available env = true ->
  share_result env = Thrown name ->
  (name = "AbortError"%string ->
     shareCardImage env card = (Returned tt, [share_called]))
  /\ (name <> "AbortError"%string ->
        shareCardImage env card = download env card [share_called]
        /\ (download_result env = Returned tt ->
              shareCardImage env card
              = (Returned tt,
                 [share_called;
                  download_clicked
                    (units "ai-for-grandmas-"
                     ++ or_str (type card) (units "card") ++ units ".png")]))
        /\ (forall e : string,
              download_result env = Thrown e ->
              shareCardImage env card = (Thrown e, [share_called]))).
Proof.
  intros Hg Hf Ha Hs. unfold shareCardImage. rewrite Hg, Hf, Ha, Hs.
  split.
  - intros ->. reflexivity.
  - intros Hne. apply String.eqb_neq in Hne. rewrite Hne.
    split; [reflexivity|]. unfold download. split.
    + intros ->. reflexivity.
    + intros e ->. reflexivity.
Qed.

Lemma share_error_falls_back_witness :
  shareCardImage Samples.cancelling_platform Samples.quick_card
  = (Returned tt, [share_called])
  /\ shareCardImage Samples.refusing_platform Samples.quick_card
     = download Samples.refusing_platform Samples.quick_card [share_called].
Proof.
  split.
  - apply (share_error_falls_back Samples.cancelling_platform Samples.quick_card
             "AbortError"); reflexivity.
  - apply (share_error_falls_back Samples.refusing_platform Samples.quick_card
             "NotAllowedError"); try reflexivity.
    discriminate.
Defined.

(** * Further properties of the art engine *)

Import Markup.

Lemma append_nil_r (s : string) : (s ++ "")%string = s.
Proof. induction s as [|c s IH]; simpl; [reflexivity|now rewrite IH]. Qed.

Lemma append_assoc (a b c : string) : ((a ++ b) ++ c)%string = (a ++ b ++ c)%string.
Proof. induction a as [|x a IH]; simpl; [reflexivity|now rewrite IH]. Qed.

Lemma prefix_append (p s : string) : String.prefix p (p ++ s) = true.
Proof.
  induction p as [|c p IH]; simpl.
  - now destruct s.
  - destruct (ascii_dec c c); [exact IH|congruence].
Qed.

Lemma tpl_cons (piece : string) (pieces : list string) :
  tpl (piece :: pieces) = (piece ++ tpl pieces)%string.
Proof.
  unfold tpl. destruct pieces as [|p ps]; simpl.
  - now rewrite append_nil_r.
  - reflexivity.
Qed.

Lemma written_snoc (pieces : list string) (piece : string) :
  written (pieces ++ [piece]) = (written pieces ++ piece)%string.
Proof.
  unfold written. induction pieces as [|p ps IH].
  - reflexivity.
  - change ((p :: ps) ++ [piece]) with (p :: (ps ++ [piece])).
    fold (tpl (p :: ps ++ [piece])). fold (tpl (p :: ps)).
    rewrite !tpl_cons. unfold tpl. rewrite IH. now rewrite append_assoc.
Qed.

(** ** Live states *)

Lemma live_next (s : Z) :
  live s ->
  live (lcg_next s)
  /\ (0 <= lcg_out (lcg_next s))%Q /\ (lcg_out (lcg_next s) < 1)%Q.
Proof.
  intros [Hs Hnd].
  destruct (lcg_next_not_divisible s Hs Hnd) as [R D].
  split; [split; [lia|exact D]|].
  apply lcg_out_unit. exact R.
Qed.

Lemma live_seed (s : Z) : 1 <= s < 2147483647 -> live s.
Proof. intros R. split; [lia|]. intros [k E]. nia. Qed.

(** ** Loops of the patterns *)

Lemma written_app (xs ys : list string) :
  written (xs ++ ys) = (written xs ++ written ys)%string.
Proof.
  induction ys as [|y ys IH] using rev_ind.
  - rewrite app_nil_r. unfold written at 3. simpl. now rewrite append_nil_r.
  - rewrite app_assoc, !written_snoc, IH. now rewrite append_assoc.
Qed.

Section Rounds.

Context {A : Type}.
Variable body : Z -> A -> Prog A.


End Rounds.

Section Pieces.

Variable body : Z -> string -> Prog string.
Variable piece_ok : string -> Prop.

Hypothesis body_appends :
  forall (i : Z) (shapes : string) (s : Z),
    live s ->
    exists piece : string,
      piece_ok piece
      /\ fst (run (body i shapes) s) = (shapes ++ piece)%string
      /\ live (snd (run (body i shapes) s)).

(** A loop whose condition holds for exactly [n] rounds, and whose bound on
    rounds is at least [n], appends [n] pieces. *)
Lemma rounds_loop (cond : Z -> bool) (step : Z) (n : nat) :
  forall (fuel : nat) (x : Z) (shapes : string) (s : Z),
    live s ->
    (n <= fuel)%nat ->
    (forall k : nat, (k < n)%nat -> cond (x + Z.of_nat k * step) = true) ->
    cond (x + Z.of_nat n * step) = false ->
    let loop := for_loop fuel x cond step body shapes in
    exists pieces : list string,
      length pieces = n
      /\ Forall piece_ok pieces
      /\ fst (run loop s) = (shapes ++ written pieces)%string
      /\ live (snd (run loop s)).
Proof.
  induction n as [|n IH]; intros fuel x shapes s Hs Hfuel Hin Hout loop.
  - exists []. subst loop.
    replace (x + Z.of_nat 0 * step) with x in Hout by lia.
    assert (E : for_loop fuel x cond step body shapes = Ret shapes).
    { destruct fuel; simpl; [reflexivity|]. now rewrite Hout. }
    rewrite E. simpl. rewrite append_nil_r.
    split; [reflexivity|]. split; [constructor|]. split; [reflexivity|exact Hs].
  - subst loop. destruct fuel as [|fuel]; [lia|]. simpl.
    pose proof (Hin 0%nat ltac:(lia)) as C0.
    replace (x + Z.of_nat 0 * step) with x in C0 by lia.
    rewrite C0, run_bind.
    destruct (body_appends x shapes s Hs) as (piece & Hp & E & Hl).
    destruct (IH fuel (x + step) (fst (run (body x shapes) s))
                (snd (run (body x shapes) s)) Hl ltac:(lia))
      as (pieces & Len & All & Out & Live).
    + intros k Hk. specialize (Hin (S k) ltac:(lia)).
      rewrite <- Hin. f_equal. lia.
    + rewrite <- Hout. f_equal. lia.
    + exists (piece :: pieces).
      split; [simpl; now rewrite Len|].
      split; [now constructor|].
      split; [|exact Live].
      rewrite Out, E, append_assoc. f_equal.
      change (piece :: pieces) with ([piece] ++ pieces).
      now rewrite written_app.
Qed.

(** The loop [for (let i = 0; i < count; i++)]. *)
Lemma counted_loop (count : Z) (shapes : string) (s : Z) :
  live s ->
  0 <= count ->
  let loop := for_loop (Z.to_nat count) 0 (fun i => i <? count) 1 body shapes in
  exists pieces : list string,
    Z.of_nat (length pieces) = count
    /\ Forall piece_ok pieces
    /\ fst (run loop s) = (shapes ++ written pieces)%string
    /\ live (snd (run loop s)).
Proof.
  intros Hs Hc loop.
  destruct (rounds_loop (fun i => i <? count) 1 (Z.to_nat count)
              (Z.to_nat count) 0 shapes s Hs ltac:(lia))
    as (pieces & Len & Rest).
  - intros k Hk. apply Z.ltb_lt. lia.
  - apply Z.ltb_ge. lia.
  - exists pieces. split; [lia|exact Rest].
Qed.

End Pieces.

Lemma pick_in_palette (palette : list string) (u : Q) :
  palette <> [] -> (0 <= u)%Q -> (u < 1)%Q -> In (pick palette u) palette.
Proof.
  intros Hne H0 H1. unfold pick.
  pose proof (floor_scale_range u (Z.of_nat (length palette))
                ltac:(destruct palette; [congruence|simpl; lia]) H0 H1) as R.
  rewrite arr_get_lookup by lia.
  destruct (lookup_lt_is_Some_2 palette
              (Z.to_nat (Math_floor (u * inject_Z (Z.of_nat (length palette)))%Q))
              ltac:(lia)) as [color E].
  rewrite E. simpl.
  apply list_elem_of_In. eapply list_elem_of_lookup_2. exact E.
Qed.

(** Five draws, one circle. *)
Lemma blob_body_circle (palette : list string) (w h : Z) (shapes : string) (s : Z) :
  palette <> [] -> live s ->
  exists piece : string,
    circle_of palette piece
    /\ fst (run (blob_body palette w h shapes) s) = (shapes ++ piece)%string
    /\ live (snd (run (blob_body palette w h shapes) s)).
Proof.
  intros Hne L0. unfold blob_body.
  destruct (live_next _ L0) as (L1 & _ & _).
  destruct (live_next _ L1) as (L2 & _ & _).
  destruct (live_next _ L2) as (L3 & _ & _).
  destruct (live_next _ L3) as (L4 & U0 & U1).
  destruct (live_next _ L4) as (L5 & _ & _).
  repeat (rewrite run_bind, run_rand; cbn [fst snd]).
  eexists. split; [|split; [reflexivity|exact L5]].
  do 5 eexists. split; [reflexivity|].
  now apply pick_in_palette.
Qed.

(** Range of [base + Math.floor(rand() * span)] for a live generator. *)
Lemma live_count (s : Z) (span : Z) :
  live s -> 0 < span ->
  0 <= Math_floor (lcg_out (lcg_next s) * inject_Z span)%Q < span.
Proof.
  intros Hs Hspan. destruct (live_next s Hs) as (_ & U0 & U1).
  now apply floor_scale_range.
Qed.

(** X1. Blob pattern: from a live generator, between 3 and 5 circles, each
    filled with a colour of the palette, and nothing else. *)
Theorem blobPattern_circles (palette : list string) (w h s : Z) :
  palette <> [] ->
  live s ->
  exists circles : list string,
    3 <= Z.of_nat (length circles) <= 5
    /\ Forall (circle_of palette) circles
    /\ fst (run (blobPattern palette w h) s) = written circles
    /\ live (snd (run (blobPattern palette w h) s)).
Proof.
  intros Hne Hs. unfold blobPattern.
  rewrite run_bind, run_rand. cbn [fst snd].
  destruct (live_next s Hs) as (L1 & U0 & U1).
  pose proof (blob_count_range _ U0 U1) as R.
  destruct (counted_loop (fun _ => blob_body palette w h) (circle_of palette)
              (fun _ shapes s' => blob_body_circle palette w h shapes s' Hne)
              (blob_count (lcg_out (lcg_next s))) "" (lcg_next s) L1 ltac:(lia))
    as (circles & Len & All & Out & Live).
  exists circles. split; [lia|]. split; [exact All|]. split; [exact Out|exact Live].
Qed.

Lemma blobPattern_circles_witness :
  exists circles : list string,
    3 <= Z.of_nat (length circles) <= 5
    /\ fst (run (blobPattern ["#e8734a"; "#f4a261"; "#fef0e4"; "#264653"; "#2a9d8f"]%string 400 200) 42) = written circles.
Proof.
  destruct (blobPattern_circles ["#e8734a"; "#f4a261"; "#fef0e4"; "#264653"; "#2a9d8f"]%string 400 200 42)
    as (circles & Len & _ & Out & _).
  - discriminate.
  - apply live_seed. lia.
  - exists circles. split; assumption.
Defined.


Lemma live_state (s : Z) (n : nat) : live s -> live (lcg_state s n).
Proof.
  intros Hs. induction n as [|n IH]; simpl; [exact Hs|].
  now apply live_next.
Qed.

Ltac draw := rewrite run_bind, run_rand; cbn [fst snd]; cbv beta.





Section Trigonometry.

Variables Math_sin Math_cos : Q -> Q.






End Trigonometry.



(** Pieces that are runs of circles, flattened. *)
Lemma written_runs (palette : list string) (lo hi : Z) (pieces : list string) :
  Forall (fun piece =>
            exists circles : list string,
              lo <= Z.of_nat (length circles) <= hi
              /\ Forall (circle_of palette) circles
              /\ piece = written circles) pieces ->
  exists circles : list string,
    Z.of_nat (length pieces) * lo <= Z.of_nat (length circles)
      <= Z.of_nat (length pieces) * hi
    /\ Forall (circle_of palette) circles
    /\ written pieces = written circles.
Proof.
  induction 1 as [|piece pieces (run & Len & All & ->) _ (rest & LenR & AllR & E)].
  - exists []. split; [simpl; lia|]. split; [constructor|reflexivity].
  - exists (run ++ rest).
    split; [rewrite length_app; simpl length; lia|].
    split; [apply Forall_app; now split|].
    change (written run :: pieces) with ([written run] ++ pieces).
    rewrite !written_app, E. reflexivity.
Qed.

Lemma ring_body_circle (palette : list string) (cx cy maxR : Q) (rings i : Z)
    (shapes : string) (s : Z) :
  palette <> [] -> live s ->
  exists piece : string,
    circle_of palette piece
    /\ fst (run (ring_body palette cx cy maxR rings i shapes) s)
       = (shapes ++ piece)%string
    /\ live (snd (run (ring_body palette cx cy maxR rings i shapes) s)).
Proof.
  intros Hne Hs. unfold ring_body. cbv zeta. do 4 draw.
  destruct (live_next s Hs) as (_ & U0 & U1).
  eexists. split; [|split; [reflexivity|apply (live_state s 4 Hs)]].
  do 5 eexists. split; [reflexivity|].
  now apply pick_in_palette.
Qed.

Lemma group_body_circles (palette : list string) (w h : Z) (shapes : string)
    (s : Z) :
  palette <> [] -> live s ->
  exists piece : string,
    (exists circles : list string,
       4 <= Z.of_nat (length circles) <= 6
       /\ Forall (circle_of palette) circles
       /\ piece = written circles)
    /\ fst (run (group_body palette w h shapes) s) = (shapes ++ piece)%string
    /\ live (snd (run (group_body palette w h shapes) s)).
Proof.
  intros Hne Hs. unfold group_body. do 4 draw. cbv zeta.
  pose proof (live_count (lcg_state s 2) 3 (live_state s 2 Hs) ltac:(lia)) as R.
  change (inject_Z 3) with 3%Q in R. simpl lcg_state in R.
  set (rings := 3 + Math_floor (lcg_out (lcg_next (lcg_next (lcg_next s))) * 3)%Q) in *.
  match goal with
  | |- context [for_loop _ _ _ _ ?body _] =>
      destruct (rounds_loop body (circle_of palette)
                  (fun i shapes' s' =>
                     ring_body_circle palette _ _ _ rings i shapes' s' Hne)
                  (fun i => 0 <=? i) (-1) (S (Z.to_nat rings))
                  (S (Z.to_nat rings)) rings shapes (lcg_state s 4)
                  (live_state s 4 Hs) ltac:(lia))
        as (circles & Len & All & Out & Live)
  end.
  - intros k Hk. apply Z.leb_le. lia.
  - apply Z.leb_gt. lia.
  - exists (written circles). split; [|split; [exact Out|exact Live]].
    exists circles. split; [lia|]. split; [exact All|reflexivity].
Qed.

(** X5. Layered circle pattern: from a live generator, 2 or 3 groups of 4
    to 6 concentric circles, so between 8 and 18 circles, each filled with
    a colour of the palette. *)
Theorem layeredCirclePattern_circles (palette : list string) (w h s : Z) :
  palette <> [] ->
  live s ->
  exists circles : list string,
    8 <= Z.of_nat (length circles) <= 18
    /\ Forall (circle_of palette) circles
    /\ fst (run (layeredCirclePattern palette w h) s) = written circles
    /\ live (snd (run (layeredCirclePattern palette w h) s)).
Proof.
  intros Hne Hs. unfold layeredCirclePattern. draw.
  destruct (live_next s Hs) as (L1 & _ & _).
  pose proof (live_count s 2 Hs ltac:(lia)) as R.
  change (inject_Z 2) with 2%Q in R.
  destruct (counted_loop (fun _ => group_body palette w h) _
              (fun _ shapes s' => group_body_circles palette w h shapes s' Hne)
              (2 + Math_floor (lcg_out (lcg_next s) * 2)%Q) "" (lcg_next s)
              L1 ltac:(lia))
    as (groups & Len & All & Out & Live).
  destruct (written_runs palette 4 6 groups All) as (circles & LenC & AllC & E).
  exists circles. split; [nia|]. split; [exact AllC|].
  split; [|exact Live].
  rewrite Out, E. reflexivity.
Qed.

Lemma layeredCirclePattern_circles_witness :
  exists circles : list string,
    8 <= Z.of_nat (length circles) <= 18
    /\ fst (run (layeredCirclePattern ["#e8734a"; "#f4a261"; "#fef0e4"; "#264653"; "#2a9d8f"]%string 400 200) 42) = written circles.
Proof.
  destruct (layeredCirclePattern_circles ["#e8734a"; "#f4a261"; "#fef0e4"; "#264653"; "#2a9d8f"]%string 400 200 42)
    as (circles & Len & _ & Out & _).
  - discriminate.
  - apply live_seed. lia.
  - exists circles. split; assumption.
Defined.


Lemma dot_body_circle (palette : list string) (jitter : Q) (x y : Z)
    (shapes : string) (s : Z) :
  palette <> [] -> live s ->
  exists piece : string,
    circle_of palette piece
    /\ fst (run (dot_body palette jitter x y shapes) s) = (shapes ++ piece)%string
    /\ live (snd (run (dot_body palette jitter x y shapes) s)).
Proof.
  intros Hne Hs. unfold dot_body. do 5 draw. cbv zeta.
  destruct (live_next _ (live_state s 3 Hs)) as (_ & U0 & U1).
  eexists. split; [|split; [reflexivity|apply (live_state s 5 Hs)]].
  do 5 eexists. split; [reflexivity|].
  now apply pick_in_palette.
Qed.

(** Rounds of [for (let x = spacing; x < bound; x += spacing)]. *)
Lemma grid_rounds (spacing bound : Z) :
  1 <= spacing ->
  let n := Z.to_nat ((bound - 1) / spacing) in
  (n <= Z.to_nat bound)%nat
  /\ (forall k : nat, (k < n)%nat ->
        (spacing + Z.of_nat k * spacing <? bound) = true)
  /\ (spacing + Z.of_nat n * spacing <? bound) = false.
Proof.
  intros Hsp n.
  pose proof (Z.div_mod (bound - 1) spacing ltac:(lia)) as D.
  pose proof (Z.mod_pos_bound (bound - 1) spacing ltac:(lia)) as M.
  assert (Q0 : bound <= 0 \/ 0 <= (bound - 1) / spacing) by
    (destruct (Z_le_gt_dec bound 0); [now left|right; apply Z.div_pos; lia]).
  assert (Qle : (bound - 1) / spacing <= Z.max 0 (bound - 1)).
  { destruct (Z_le_gt_dec bound 0).
    - assert ((bound - 1) / spacing < 0) by (apply Z.div_lt_upper_bound; lia). lia.
    - assert ((bound - 1) / spacing <= bound - 1)
        by (apply Z.div_le_upper_bound; nia). lia. }
  subst n. split; [lia|]. split.
  - intros k Hk. apply Z.ltb_lt. nia.
  - apply Z.ltb_ge.
    destruct (Z_le_gt_dec 0 ((bound - 1) / spacing)).
    + rewrite Z2Nat.id by assumption. nia.
    + replace (Z.to_nat ((bound - 1) / spacing)) with 0%nat by lia. nia.
Qed.

Lemma dot_loops_circles (palette : list string) (spacing : Z) (jitter : Q)
    (w h s : Z) :
  palette <> [] -> live s -> 1 <= spacing ->
  let loops :=
    dot_loops (Z.to_nat w) (Z.to_nat h) palette spacing jitter w h in
  exists circles : list string,
    Z.of_nat (length circles)
    = Z.of_nat (Z.to_nat ((w - 1) / spacing))
      * Z.of_nat (Z.to_nat ((h - 1) / spacing))
    /\ Forall (circle_of palette) circles
    /\ fst (run loops s) = written circles
    /\ live (snd (run loops s)).
Proof.
  intros Hne Hs Hsp loops. subst loops. unfold dot_loops.
  destruct (grid_rounds spacing w Hsp) as (Fw & Inw & Outw).
  destruct (grid_rounds spacing h Hsp) as (Fh & Inh & Outh).
  set (rows := Z.to_nat ((h - 1) / spacing)) in *.
  set (cols := Z.to_nat ((w - 1) / spacing)) in *.
  match goal with
  | |- context [for_loop _ _ _ _ ?body _] =>
      destruct (rounds_loop body
                  (fun piece =>
                     exists circles : list string,
                       Z.of_nat rows <= Z.of_nat (length circles) <= Z.of_nat rows
                       /\ Forall (circle_of palette) circles
                       /\ piece = written circles))
        with (cond := fun x => x <? w) (step := spacing) (n := cols)
             (fuel := Z.to_nat w) (x := spacing) (shapes := ""%string) (s := s)
        as (columns & Len & All & Out & Live); try assumption
  end.
  - intros x shapes s' Hs'.
    destruct (rounds_loop (fun y => dot_body palette jitter x y)
                (circle_of palette)
                (fun y shapes' s'' =>
                   dot_body_circle palette jitter x y shapes' s'' Hne)
                (fun y => y <? h) spacing rows (Z.to_nat h) spacing shapes s'
                Hs' Fh Inh Outh)
      as (circles & LenC & AllC & OutC & LiveC).
    exists (written circles). split; [|split; [exact OutC|exact LiveC]].
    exists circles. split; [lia|]. split; [exact AllC|reflexivity].
  - destruct (written_runs palette (Z.of_nat rows) (Z.of_nat rows) columns All)
      as (circles & LenC & AllC & E).
    exists circles. split; [lia|]. split; [exact AllC|].
    split; [|exact Live].
    rewrite Out, E. reflexivity.
Qed.

Lemma grid_count_bounds (spacing : Z) :
  25 <= spacing <= 39 -> 50 <= (399 / spacing) * (199 / spacing) <= 105.
Proof.
  intros Hsp.
  assert (C : spacing = 25 \/ spacing = 26 \/ spacing = 27 \/ spacing = 28
              \/ spacing = 29 \/ spacing = 30 \/ spacing = 31 \/ spacing = 32
              \/ spacing = 33 \/ spacing = 34 \/ spacing = 35 \/ spacing = 36
              \/ spacing = 37 \/ spacing = 38 \/ spacing = 39) by lia.
  clear Hsp.
  repeat (destruct C as [->|C]; [vm_compute; split; discriminate|]).
  subst spacing. vm_compute. split; discriminate.
Qed.

(** X6. Dot grid pattern on the 400 by 200 canvas: from a live generator
    the spacing is between 25 and 39, the grid has [399 / spacing] columns
    of [199 / spacing] rows, and so between 50 and 105 circles are written,
    each filled with a colour of the palette. *)
Theorem dotGridPattern_circles (palette : list string) (s : Z) :
  palette <> [] ->
  live s ->
  let spacing := 25 + Math_floor (lcg_out (lcg_next s) * 15)%Q in
  25 <= spacing <= 39
  /\ exists circles : list string,
       Z.of_nat (length circles) = (399 / spacing) * (199 / spacing)
       /\ 50 <= Z.of_nat (length circles) <= 105
       /\ Forall (circle_of palette) circles
       /\ fst (run (dotGridPattern palette 400 200) s) = written circles
       /\ live (snd (run (dotGridPattern palette 400 200) s)).
Proof.
  intros Hne Hs spacing.
  pose proof (live_count s 15 Hs ltac:(lia)) as R.
  change (inject_Z 15) with 15%Q in R.
  assert (Hsp : 25 <= spacing <= 39) by (subst spacing; lia).
  split; [exact Hsp|].
  unfold dotGridPattern. do 2 draw. cbv zeta. fold spacing.
  destruct (dot_loops_circles palette spacing
              (5 + lcg_out (lcg_next (lcg_next s)) * 10)%Q 400 200
              (lcg_state s 2) Hne (live_state s 2 Hs) ltac:(lia))
    as (circles & Len & All & Out & Live).
  change (400 - 1) with 399 in Len. change (200 - 1) with 199 in Len.
  assert (P1 : 0 <= 399 / spacing) by (apply Z.div_pos; lia).
  assert (P2 : 0 <= 199 / spacing) by (apply Z.div_pos; lia).
  rewrite !Z2Nat.id in Len by assumption.
  exists circles. split; [exact Len|].
  split; [|split; [exact All|split; [exact Out|exact Live]]].
  rewrite Len. now apply grid_count_bounds.
Qed.

Lemma dotGridPattern_circles_witness :
  exists circles : list string,
    50 <= Z.of_nat (length circles) <= 105
    /\ fst (run (dotGridPattern ["#e8734a"; "#f4a261"; "#fef0e4"; "#264653"; "#2a9d8f"]%string 400 200) 42) = written circles.
Proof.
  destruct (dotGridPattern_circles ["#e8734a"; "#f4a261"; "#fef0e4"; "#264653"; "#2a9d8f"]%string 42)
    as (_ & circles & _ & Len & _ & Out & _).
  - discriminate.
  - apply live_seed. lia.
  - exists circles. split; assumption.
Defined.


(** ** The generator and the markup as a whole *)

(** X7. The step of the generator is one-to-one on the states below the
    modulus: two different states never share a successor. *)
Theorem lcg_next_injective (a b : Z) :
  0 <= a < 2147483647 -> 0 <= b < 2147483647 ->
  lcg_next a = lcg_next b -> a = b.
Proof.
  intros Ha Hb E.
  rewrite !lcg_next_mod in E by lia.
  assert (D : (2147483647 | (a - b) * 16807)).
  { apply Z.mod_divide; [discriminate|].
    replace ((a - b) * 16807) with (a * 16807 - b * 16807) by ring.
    rewrite Zminus_mod, E, Z.sub_diag. reflexivity. }
  rewrite Z.mul_comm in D.
  apply Z.gauss in D; [|reflexivity].
  destruct D as [k D].
  assert (k = 0) by nia. lia.
Qed.

Lemma lcg_next_injective_witness : lcg_next 1 <> lcg_next 2.
Proof.
  intros E.
  pose proof (lcg_next_injective 1 2 ltac:(lia) ltac:(lia) E). discriminate.
Defined.

Section Whole.

Variables Math_sin Math_cos : Q -> Q.

(** X8. [generate] never throws: for every title and category it returns
    markup that opens with the [<svg] tag and closes with [</svg>]. *)
Theorem generate_returns_svg (title category : jsstring) (st : Store) :
  exists markup : string,
    fst (CardArt.generate Math_sin Math_cos title category st) = Some markup
    /\ starts_with "<svg xmlns=" markup
    /\ exists inner : string, markup = (inner ++ "</svg>")%string.
Proof.
  rewrite generate_run. cbn [fst].
  set (seed := generate_seed title category).
  assert (Hs : 0 <= seed) by apply hash_nonneg.
  destruct (getPalette_defined seed Hs) as [palette ->].
  destruct (PATTERNS_defined Math_sin Math_cos seed) as [pattern1 H1].
  destruct (PATTERNS_defined Math_sin Math_cos (seed + 3)) as [pattern2 H2].
  rewrite (generate_body_run Math_sin Math_cos seed palette pattern1 pattern2
             Hs H1 H2).
  eexists. split; [reflexivity|]. split.
  - unfold starts_with, svg_head. rewrite tpl_cons, !append_assoc.
    apply prefix_append.
  - destruct (Qgtb _ _).
    + eexists. rewrite <- append_assoc. reflexivity.
    + eexists. reflexivity.
Qed.

Lemma palette_colours (h : Z) (palette : list string) :
  getPalette h = Some palette ->
  length palette = 5%nat /\ Forall (fun color => color <> ""%string) palette.
Proof.
  unfold getPalette, arr_get.
  destruct (Z.rem h (Z.of_nat (length PALETTES)) <? 0); [discriminate|].
  intros E. apply list_elem_of_lookup_2, list_elem_of_In in E.
  repeat (destruct E as [<-|E];
          [split; [reflexivity|repeat constructor; discriminate]|]).
  destruct E.
Qed.

(** X9. For a title and category whose seed the modulus does not divide,
    the background gradient is turned by a whole number of degrees from 0
    to 359 and runs from the third colour of the palette to the fourth. *)
Theorem generate_gradient (title category : jsstring) (st : Store) :
  live (generate_seed title category) ->
  exists (palette : list string) (angle : Z) (from to rest : string),
    getPalette (generate_seed title category) = Some palette
    /\ palette !! 2%nat = Some from
    /\ palette !! 3%nat = Some to
    /\ 0 <= angle <= 359
    /\ fst (CardArt.generate Math_sin Math_cos title category st)
       = Some (svg_head 400 200 (generate_seed title category) angle
                 (Some from) (Some to) ++ rest)%string.
Proof.
  intros Hlive. rewrite generate_run. cbn [fst].
  set (seed := generate_seed title category) in *.
  assert (Hs : 0 <= seed) by apply hash_nonneg.
  destruct (getPalette_defined seed Hs) as [palette Hp]. rewrite Hp.
  destruct (PATTERNS_defined Math_sin Math_cos seed) as [pattern1 H1].
  destruct (PATTERNS_defined Math_sin Math_cos (seed + 3)) as [pattern2 H2].
  rewrite (generate_body_run Math_sin Math_cos seed palette pattern1 pattern2
             Hs H1 H2).
  destruct (palette_colours seed palette Hp) as [Len All].
  destruct palette as [|c0 [|c1 [|c2 [|c3 [|c4 [|]]]]]]; try discriminate.
  assert (N2 : c2 <> ""%string) by (rewrite Forall_forall in All; apply All;
                                    apply list_elem_of_In; simpl; auto).
  assert (N3 : c3 <> ""%string) by (rewrite Forall_forall in All; apply All;
                                    apply list_elem_of_In; simpl; auto).
  destruct (live_next seed Hlive) as (L1 & _ & _).
  pose proof (live_count (lcg_next seed) 360 L1 ltac:(lia)) as R.
  change (inject_Z 360) with 360%Q in R.
  exists [c0; c1; c2; c3; c4],
         (Math_floor (lcg_out (lcg_next (lcg_next seed)) * 360)%Q), c2, c3.
  eexists. split; [reflexivity|]. split; [reflexivity|]. split; [reflexivity|].
  split; [lia|].
  change (arr_get [c0; c1; c2; c3; c4] 2) with (Some c2).
  change (arr_get [c0; c1; c2; c3; c4] 3) with (Some c3).
  assert (O2 : forall b, or_else (Some c2) b = Some c2) by (now destruct c2).
  assert (O3 : forall b, or_else (Some c3) b = Some c3) by (now destruct c3).
  rewrite O2, O3, append_assoc. reflexivity.
Qed.

End Whole.

Lemma generate_gradient_witness :
  exists (angle : Z) (rest : string),
    0 <= angle <= 359
    /\ fst (CardArt.generate (fun x => x) (fun x => x)
              (units "Test Title") (units "brief") [])
       = Some (svg_head 400 200 474450576 angle
                 (Some "#fef0e4") (Some "#264653") ++ rest)%string.
Proof.
  destruct (generate_gradient (fun x => x) (fun x => x)
              (units "Test Title") (units "brief") [])
    as (palette & angle & from & to & rest & P & F & T & A & E).
  - apply live_seed. vm_compute. split; [discriminate|reflexivity].
  - vm_compute in P. injection P as <-.
    injection F as <-. injection T as <-.
    exists angle, rest. split; [exact A|exact E].
Defined.

(** ** toFixed *)

Lemma length_append (a b : string) :
  String.length (a ++ b) = (String.length a + String.length b)%nat.
Proof. induction a as [|c a IH]; simpl; [reflexivity|now rewrite IH]. Qed.

Lemma length_zeros (n : nat) : String.length (zeros n) = n.
Proof. induction n as [|n IH]; simpl; [reflexivity|now rewrite IH]. Qed.

Lemma length_substring (n m : nat) (s : string) :
  (n + m <= String.length s)%nat -> String.length (substring n m s) = m.
Proof.
  revert n m. induction s as [|c s IH]; intros n m H; simpl in H.
  - assert (m = 0)%nat by lia. subst. now destruct n.
  - destruct n as [|n]; simpl.
    + destruct m as [|m]; simpl; [reflexivity|].
      f_equal. apply IH. simpl. lia.
    + apply IH. lia.
Qed.

(** With [f >= 1] digits asked, [toFixed] writes an optional minus sign, at
    least one digit, the point, and exactly [f] more characters. *)
Lemma toFixed_fraction_digits (x : Q) (f : nat) :
  (1 <= f)%nat ->
  exists sign whole fraction : string,
    toFixed x f = (sign ++ whole ++ "." ++ fraction)%string
    /\ (sign = ""%string \/ sign = "-"%string)
    /\ (1 <= String.length whole)%nat
    /\ String.length fraction = f.
Proof.
  intros Hf. unfold toFixed.
  set (m := num_str _).
  set (padded := if (String.length m <=? f)%nat then _ else m).
  assert (L : (f + 1 <= String.length padded)%nat).
  { subst padded. destruct (Nat.leb_spec (String.length m) f).
    - rewrite length_append, length_zeros. lia.
    - lia. }
  destruct (Nat.eqb_spec f 0); [lia|].
  exists (if Qgtb 0 x then "-" else "")%string,
         (substring 0 (String.length padded - f) padded),
         (substring (String.length padded - f) f padded).
  split; [reflexivity|].
  split; [destruct (Qgtb 0 x); auto|].
  split; rewrite length_substring; lia.
Qed.

(** * Further properties of the card image *)

Import Layout.

(** ** wrapText *)

Lemma truthy_nonempty (s : jsstring) : truthy s = true <-> s <> [].
Proof. destruct s; simpl; split; congruence. Qed.

Lemma split_nonempty (sep : Z) (s : jsstring) : split sep s <> [].
Proof.
  induction s as [|c s IH]; simpl; [discriminate|].
  destruct (c =? sep); [discriminate|].
  now destruct (split sep s).
Qed.

Lemma unspaced_app (a b : jsstring) : unspaced (a ++ b) = unspaced a ++ unspaced b.
Proof. apply List.filter_app. Qed.

Lemma unspaced_split (text : jsstring) :
  unspaced (concat (split 32 text)) = unspaced text.
Proof.
  induction text as [|c text IH]; [reflexivity|].
  simpl split. destruct (Z.eqb_spec c 32) as [->|Hc].
  - simpl. exact IH.
  - pose proof (split_nonempty 32 text) as Hne.
    destruct (split 32 text) as [|word rest]; [congruence|].
    simpl in *. apply Z.eqb_neq in Hc. rewrite Hc. simpl. now rewrite IH.
Qed.

Section WrapKeeps.

Variable measure : jsstring -> Q.
Variable maxWidth : Q.

Lemma wrap_word_keeps (seen : list jsstring) (st : list jsstring * jsstring)
    (word : jsstring) (i : nat) :
  wrap_keeps seen st ->
  wrap_keeps (seen ++ [word]) (wrap_word measure maxWidth st word i).
Proof.
  destruct st as [lines currentLine]. intros [HL HU]. simpl in HL, HU.
  assert (R : unspaced (concat (seen ++ [word]))
              = unspaced (concat lines ++ currentLine) ++ unspaced word).
  { rewrite concat_app, unspaced_app, HU. simpl. now rewrite app_nil_r. }
  unfold wrap_word, wrap_keeps. rewrite R. clear R HU.
  destruct (truthy currentLine) eqn:T.
  - destruct (Qgtb _ _); simpl.
    + split.
      * apply Forall_app. split; [exact HL|].
        constructor; [now apply truthy_nonempty|constructor].
      * rewrite concat_app. simpl. rewrite app_nil_r.
        now rewrite !unspaced_app.
    + split; [exact HL|].
      rewrite !unspaced_app. simpl. now rewrite <- app_assoc.
  - rewrite andb_false_r. simpl. split; [exact HL|].
    destruct currentLine; [|discriminate].
    now rewrite !unspaced_app, app_nil_r.
Qed.

Lemma forEach_wrap_keeps (todo seen : list jsstring)
    (st : list jsstring * jsstring) (i : nat) :
  wrap_keeps seen st ->
  wrap_keeps (seen ++ todo) (forEach (wrap_word measure maxWidth) todo i st).
Proof.
  revert seen st i. induction todo as [|word todo IH]; intros seen st i Hinv; simpl.
  - now rewrite app_nil_r.
  - replace (seen ++ word :: todo) with ((seen ++ [word]) ++ todo)
      by now rewrite <- app_assoc.
    apply IH. now apply wrap_word_keeps.
Qed.

Lemma wrapText_keeps (text : jsstring) :
  Forall (fun line => line <> []) (wrapText measure text maxWidth)
  /\ unspaced (concat (wrapText measure text maxWidth)) = unspaced text.
Proof.
  unfold wrapText.
  pose proof (forEach_wrap_keeps (split 32 text) [] ([], []) 0%nat) as Hinv.
  destruct (forEach _ _ _ _) as [lines currentLine].
  destruct Hinv as [HL HU]; [split; [constructor|reflexivity]|].
  simpl in HL, HU. rewrite unspaced_split in HU.
  destruct (truthy currentLine) eqn:T.
  - split.
    + apply Forall_app. split; [exact HL|].
      constructor; [now apply truthy_nonempty|constructor].
    + rewrite concat_app. simpl. now rewrite app_nil_r.
  - split; [exact HL|].
    destruct currentLine; [|discriminate]. now rewrite app_nil_r in HU.
Qed.

End WrapKeeps.

(** X10. [wrapText] never returns an empty line. *)
Theorem wrapText_no_empty_line (measure : jsstring -> Q) (text : jsstring)
    (maxWidth : Q) (line : jsstring) :
  In line (wrapText measure text maxWidth) -> line <> [].
Proof.
  intros Hin.
  destruct (wrapText_keeps measure maxWidth text) as [HL _].
  rewrite Forall_forall in HL. apply HL. now apply list_elem_of_In.
Qed.

Lemma wrapText_no_empty_line_witness :
  wrapText Samples.unit_measure (units "  ab   cd ") 2 = [units "ab"; units "cd"]
  /\ units "cd" <> [].
Proof.
  split; [reflexivity|].
  apply (wrapText_no_empty_line Samples.unit_measure (units "  ab   cd ") 2).
  right. left. reflexivity.
Defined.


(** X11. [wrapText] drops nothing but spaces: the lines, read one after the
    other without their spaces, are the text without its spaces. *)
Theorem wrapText_keeps_letters (measure : jsstring -> Q) (text : jsstring)
    (maxWidth : Q) :
  unspaced (concat (wrapText measure text maxWidth)) = unspaced text.
Proof. apply wrapText_keeps. Qed.

(** ** The body lines *)

Lemma forEach_push {A : Type} (items : list A) (i : nat) (acc : list A) :
  forEach (fun lines line _ => lines ++ [line]) items i acc = acc ++ items.
Proof.
  revert i acc. induction items as [|x items IH]; intros i acc; simpl.
  - now rewrite app_nil_r.
  - rewrite IH. now rewrite <- app_assoc.
Qed.

Lemma trim_start_head (s : jsstring) (c : Z) (rest : jsstring) :
  trim_start s = c :: rest -> is_space c = false.
Proof.
  induction s as [|x s IH]; simpl; [discriminate|].
  destruct (is_space x) eqn:E; [exact IH|].
  intros H. injection H as <- _. exact E.
Qed.

Lemma trim_has_letter (s : jsstring) : trim s <> [] -> unspaced (trim s) <> [].
Proof.
  unfold trim. intros Hne.
  destruct (trim_start (rev (trim_start s))) as [|c rest] eqn:E; [now simpl in Hne|].
  apply trim_start_head in E.
  simpl rev. rewrite unspaced_app.
  assert (Hc : c <> 32) by (intros ->; discriminate).
  apply Z.eqb_neq in Hc. simpl. rewrite Hc. simpl.
  now destruct (unspaced (rev rest)).
Qed.

Lemma wrapText_some_line (measure : jsstring -> Q) (text : jsstring) (maxWidth : Q) :
  unspaced text <> [] -> wrapText measure text maxWidth <> [].
Proof.
  intros Hne E. apply Hne.
  destruct (wrapText_keeps measure maxWidth text) as [_ K].
  rewrite <- K, E. reflexivity.
Qed.

Lemma gaps_closed_full (lines : list jsstring) :
  Forall (fun line => line <> []) lines -> gaps_closed lines.
Proof.
  induction 1 as [|line lines Hl _ IH]; simpl; [exact I|].
  split; [congruence|exact IH].
Qed.

Lemma gaps_closed_app (acc lines : list jsstring) :
  gaps_closed acc -> gaps_closed lines -> gaps_closed (acc ++ lines).
Proof.
  intros Ha Hl. induction acc as [|line acc IH]; simpl; [exact Hl|].
  destruct Ha as [Hg Ha]. split; [|now apply IH].
  intros E. specialize (Hg E). now destruct acc.
Qed.

Lemma gaps_closed_gap (lines : list jsstring) :
  lines <> [] -> Forall (fun line => line <> []) lines ->
  gaps_closed ([] :: lines).
Proof.
  intros Hne All. simpl. split.
  - intros _. destruct lines; [congruence|]. now inversion All.
  - now apply gaps_closed_full.
Qed.

Lemma gaps_closed_next (before after : list jsstring) :
  gaps_closed (before ++ [] :: after) ->
  exists (line : jsstring) (rest : list jsstring),
    after = line :: rest /\ line <> [].
Proof.
  induction before as [|x before IH]; simpl.
  - intros [Hg _]. specialize (Hg eq_refl).
    destruct after as [|line rest]; [contradiction|eauto].
  - intros [_ H]. now apply IH.
Qed.

Section Body.

Variable measureText : string -> jsstring -> Q.

Lemma body_paragraph_gaps (acc : list jsstring) (para : jsstring) (pi : nat) :
  gaps_closed acc -> gaps_closed (body_paragraph measureText acc para pi).
Proof.
  intros Ha. unfold body_paragraph. rewrite forEach_push.
  set (wrapped := wrapText _ _ _).
  assert (All : Forall (fun line => line <> []) wrapped).
  { apply wrapText_keeps. }
  destruct ((0 <? pi)%nat && truthy (trim para)) eqn:G.
  - rewrite <- app_assoc. apply gaps_closed_app; [exact Ha|].
    apply gaps_closed_gap; [|exact All].
    apply andb_true_iff in G as [_ T].
    apply wrapText_some_line, trim_has_letter. now apply truthy_nonempty.
  - apply gaps_closed_app; [exact Ha|now apply gaps_closed_full].
Qed.

Lemma forEach_body_gaps (paras : list jsstring) (i : nat) (acc : list jsstring) :
  gaps_closed acc -> gaps_closed (forEach (body_paragraph measureText) paras i acc).
Proof.
  revert i acc. induction paras as [|para paras IH]; intros i acc Ha; simpl.
  - exact Ha.
  - apply IH. now apply body_paragraph_gaps.
Qed.

(** X12. In the wrapped body every blank paragraph gap is followed by a line
    of text: a gap is never the last entry and never doubled. *)
Theorem bodyLines_gap_followed (card : Card) (before after : list jsstring) :
  bodyLines measureText card = before ++ [] :: after ->
  exists (line : jsstring) (rest : list jsstring),
    after = line :: rest /\ line <> [].
Proof.
  intros E. apply (gaps_closed_next before). rewrite <- E.
  unfold bodyLines. apply forEach_body_gaps. exact I.
Qed.



(** X13. The height of the card is the fixed paddings plus 72 per title line
    plus 58 per visible body line plus 50 for a source line; with a title
    of at most three lines its bottom edge stays above the footer line,
    however long the body. *)
Theorem card_above_footer (card : Card) :
  (length (titleLines measureText card) <= 3)%nat ->
  cardHeight measureText card
  = 298 + 72 * Z.of_nat (length (titleLines measureText card))
    + 58 * Z.of_nat (length (visibleBodyLines measureText card))
    + (if truthy (sourceText card) then 50 else 0)
  /\ cardTop + cardHeight measureText card <= footerY.
Proof.
  intros Ht.
  assert (E : cardHeight measureText card
              = 298 + 72 * Z.of_nat (length (titleLines measureText card))
                + 58 * Z.of_nat (length (visibleBodyLines measureText card))
                + (if truthy (sourceText card) then 50 else 0)).
  { unfold cardHeight, sourceY, bodyY, titleY, cardTop, cardPad, tagH,
      titleLineHeight, bodyLineHeight.
    destruct (truthy (sourceText card)); lia. }
  split; [exact E|]. rewrite E.
  assert (V : (length (visibleBodyLines measureText card) <= 16)%nat).
  { unfold visibleBodyLines. rewrite length_take. unfold maxBodyLines. lia. }
  unfold cardTop, footerY, H.
  destruct (truthy (sourceText card)); lia.
Qed.

End Body.

Lemma bodyLines_gap_followed_witness :
  bodyLines Samples.font_measure Samples.quick_card
  = [units "one"; []; units "two"]
  /\ exists (line : jsstring) (rest : list jsstring),
       [units "two"] = line :: rest /\ line <> [].
Proof.
  split; [reflexivity|].
  apply (bodyLines_gap_followed Samples.font_measure Samples.quick_card
           [units "one"] [units "two"]).
  reflexivity.
Defined.

Lemma card_above_footer_witness :
  cardHeight Samples.font_measure Samples.long_card = 1298
  /\ cardTop + cardHeight Samples.font_measure Samples.long_card <= footerY.
Proof.
  destruct (card_above_footer Samples.font_measure Samples.long_card) as [E B].
  - vm_compute. lia.
  - split; [rewrite E; reflexivity|exact B].
Defined.

(** ** shareCardImage *)

(** X14. An error thrown by [shareCardImage] is the error of rendering, of
    the blob conversion or of the download; an error of the share call is
    never what the caller sees unless the download throws the same. *)
Theorem shareCardImage_error_source (env : Platform) (card : Card) (e : string) :
  fst (shareCardImage env card) = Thrown e ->
  generate_result env = Thrown e
  \/ fetch_result env = Thrown e
  \/ download_result env = Thrown e.
Proof.
  unfold shareCardImage, download.
  destruct (generate_result env) as [[]|g]; [|simpl; auto].
  destruct (fetch_result env) as [[]|f]; [|simpl; auto].
  destruct (share_available env), (share_result env) as [[]|name],
    (download_result env) as [[]|d]; simpl;
    try destruct (String.eqb name "AbortError"); simpl; auto; discriminate.
Qed.

Lemma shareCardImage_error_source_witness :
  download_result
    {| generate_result := Returned tt; fetch_result := Returned tt;
       share_available := false; share_result := Returned tt;
       download_result := Thrown "SecurityError" |}
  = Thrown "SecurityError"
  \/ False.
Proof.
  destruct (shareCardImage_error_source
              {| generate_result := Returned tt; fetch_result := Returned tt;
                 share_available := false; share_result := Returned tt;
                 download_result := Thrown "SecurityError" |}
              Samples.quick_card "SecurityError") as [G|[F|D]].
  - reflexivity.
  - discriminate G.
  - discriminate F.
  - left. exact D.
Defined.


(** X15. One call of [shareCardImage] calls share at most once and clicks the
    download link at most once, in that order; share is called only where
    it is available, and there is no download after a share that
    succeeded or was cancelled. *)
Theorem shareCardImage_events (env : Platform) (card : Card) :
  let log := snd (shareCardImage env card) in
  let file :=
    download_clicked
      (units "ai-for-grandmas-" ++ or_str (type card) (units "card")
       ++ units ".png") in
  (log = [] \/ log = [share_called] \/ log = [file]
   \/ log = [share_called; file])
  /\ (In share_called log -> share_available env = true)
  /\ (In file log ->
        share_available env = false
        \/ exists name : string,
             share_result env = Thrown name /\ name <> "AbortError"%string).
Proof.
  unfold shareCardImage, download.
  destruct (generate_result env) as [[]|g]; [|simpl; intuition discriminate].
  destruct (fetch_result env) as [[]|f]; [|simpl; intuition discriminate].
  destruct (share_available env); [|destruct (download_result env) as [[]|d];
                                      simpl; intuition discriminate].
  destruct (share_result env) as [[]|name]; [simpl; intuition discriminate|].
  destruct (String.eqb_spec name "AbortError") as [->|Hne];
    [simpl; intuition discriminate|].
  destruct (download_result env) as [[]|d]; simpl.
  - split; [auto|]. split; [auto|]. intros _. right. now exists name.
  - split; [auto|]. split; [auto|]. intros [E|[]]. discriminate.
Qed.

(** * Properties of the app *)

Import App.

(** ** escapeHtml *)

Lemma replace_all_flat_map (c : Z) (by_ : jsstring) (f : Z -> jsstring)
    (str : jsstring) :
  replace_all c by_ (flat_map f str)
  = flat_map (fun x => replace_all c by_ (f x)) str.
Proof.
  unfold replace_all. induction str as [|x str IH]; simpl; [reflexivity|].
  now rewrite flat_map_app, IH.
Qed.

Lemma replace_all_unit (c : Z) (by_ : jsstring) (x : Z) :
  replace_all c by_ [x] = if x =? c then by_ else [x].
Proof. unfold replace_all. simpl. apply app_nil_r. Qed.

Lemma escape_passes_unit (c : Z) :
  replace_all 34 (units "&quot;")
    (replace_all 62 (units "&gt;")
       (replace_all 60 (units "&lt;")
          (replace_all 38 (units "&amp;") [c])))
  = escape_unit c.
Proof.
  unfold escape_unit, replace_all at 4. simpl flat_map.
  destruct (Z.eqb_spec c 38) as [->|H38]; [reflexivity|].
  unfold replace_all at 3. simpl flat_map.
  destruct (Z.eqb_spec c 60) as [->|H60]; [reflexivity|].
  unfold replace_all at 2. simpl flat_map.
  destruct (Z.eqb_spec c 62) as [->|H62]; [reflexivity|].
  unfold replace_all. simpl flat_map.
  destruct (Z.eqb_spec c 34) as [->|H34]; reflexivity.
Qed.

Lemma escapeHtml_flat_map (str : jsstring) :
  escapeHtml (Some str) = flat_map escape_unit str.
Proof.
  unfold escapeHtml. destruct str as [|c str]; [reflexivity|].
  cbn [truthy]. generalize (c :: str). clear. intros str.
  unfold replace_all at 4.
  rewrite !replace_all_flat_map.
  apply flat_map_ext. intros x.
  rewrite <- escape_passes_unit. now rewrite replace_all_unit.
Qed.

(** X16. The four replacement passes of [escapeHtml] act as one table applied
    to each code unit in turn: [&], [<], [>] and the double quote become
    their entities, everything else (the apostrophe included) is copied,
    and no entity written by one pass is escaped again by a later one.  A
    missing or empty argument gives the empty string. *)
Theorem escapeHtml_table (str : jsstring) :
  escapeHtml (Some str) = flat_map escape_unit str
  /\ escapeHtml None = []
  /\ escape_unit 39 = [39].
Proof.
  split; [apply escapeHtml_flat_map|split; reflexivity].
Qed.

Lemma escape_unit_clean (c : Z) :
  Forall (fun x => x <> 60 /\ x <> 62 /\ x <> 34) (escape_unit c).
Proof.
  unfold escape_unit.
  destruct (Z.eqb_spec c 38); [repeat constructor; discriminate|].
  destruct (Z.eqb_spec c 60); [repeat constructor; discriminate|].
  destruct (Z.eqb_spec c 62); [repeat constructor; discriminate|].
  destruct (Z.eqb_spec c 34); [repeat constructor; discriminate|].
  repeat constructor; assumption.
Qed.

(** X17. The result of [escapeHtml] holds no [<], no [>] and no double
    quote. *)
Theorem escapeHtml_no_markup (str : option jsstring) (x : Z) :
  In x (escapeHtml str) -> x <> 60 /\ x <> 62 /\ x <> 34.
Proof.
  destruct str as [str|]; [|intros []].
  rewrite escapeHtml_flat_map.
  intros Hin. apply in_flat_map in Hin as (c & _ & Hin).
  pose proof (escape_unit_clean c) as Hc.
  rewrite Forall_forall in Hc. apply Hc. now apply list_elem_of_In.
Qed.

Lemma escapeHtml_no_markup_witness :
  escapeHtml (Some (units "a<b>&c")) = units "a&lt;b&gt;&amp;c"
  /\ (38 <> 60 /\ 38 <> 62 /\ 38 <> 34).
Proof.
  split; [reflexivity|].
  apply (escapeHtml_no_markup (Some (units "a<b>&c")) 38).
  right. left. reflexivity.
Defined.


(** The first code unit written for [c] is [c] itself or the ampersand, and
    the second one tells the entities apart. *)
Lemma escape_unit_cases (c : Z) :
  (c = 38 /\ escape_unit c = units "&amp;")
  \/ (c = 60 /\ escape_unit c = units "&lt;")
  \/ (c = 62 /\ escape_unit c = units "&gt;")
  \/ (c = 34 /\ escape_unit c = units "&quot;")
  \/ (c <> 38 /\ escape_unit c = [c]).
Proof.
  unfold escape_unit.
  destruct (Z.eqb_spec c 38); [auto|].
  destruct (Z.eqb_spec c 60); [auto|].
  destruct (Z.eqb_spec c 62); [auto 6|].
  destruct (Z.eqb_spec c 34); [auto 6|]. auto 6.
Qed.

Lemma escape_unit_inj (a b : Z) (ra rb : jsstring) :
  escape_unit a ++ ra = escape_unit b ++ rb -> a = b /\ ra = rb.
Proof.
  destruct (escape_unit_cases a) as [[-> ->]|[[-> ->]|[[-> ->]|[[-> ->]|[Ha ->]]]]];
  destruct (escape_unit_cases b) as [[-> ->]|[[-> ->]|[[-> ->]|[[-> ->]|[Hb ->]]]]];
  intros E; vm_compute in E; inversion E; subst;
  try (split; reflexivity); congruence.
Qed.

Lemma flat_map_escape_inj (a b : jsstring) :
  flat_map escape_unit a = flat_map escape_unit b -> a = b.
Proof.
  revert b. induction a as [|x a IH]; intros [|y b]; simpl.
  - reflexivity.
  - intros E. destruct (escape_unit_cases y) as [[_ R]|[[_ R]|[[_ R]|[[_ R]|[_ R]]]]];
      rewrite R in E; vm_compute in E; discriminate.
  - intros E. destruct (escape_unit_cases x) as [[_ R]|[[_ R]|[[_ R]|[[_ R]|[_ R]]]]];
      rewrite R in E; vm_compute in E; discriminate.
  - intros E. apply escape_unit_inj in E as [-> E]. f_equal. now apply IH.
Qed.

(** X18. [escapeHtml] loses nothing: two strings with the same escaped form
    are the same string. *)
Theorem escapeHtml_injective (a b : jsstring) :
  escapeHtml (Some a) = escapeHtml (Some b) -> a = b.
Proof.
  rewrite !escapeHtml_flat_map. apply flat_map_escape_inj.
Qed.

Lemma escapeHtml_injective_witness :
  escapeHtml (Some (units "&lt;")) <> escapeHtml (Some (units "<")).
Proof.
  intros E. apply escapeHtml_injective in E. discriminate E.
Defined.


(** ** The streak *)


Lemma num_or_pos (k : option Z) :
  match k with Some v => 1 <= v | None => True end -> 1 <= num_or k 1.
Proof.
  unfold num_or. destruct k as [v|]; [|lia].
  intros H. destruct (Z.eqb_spec v 0); lia.
Qed.

Lemma num_or_same (v : Z) : 1 <= v -> num_or (Some v) 1 = v.
Proof. intros H. unfold num_or. destruct (Z.eqb_spec v 0); lia. Qed.

(** X19. Where a stored streak is at least 1, [updateStreak] returns and
    leaves a streak of at least 1, and calling it again on the same UTC day
    returns the same number and writes nothing. *)
Theorem updateStreak_same_day (now1 now2 again1 again2 : Z) (ls : Storage) :
  streak_ok ls ->
  utc_day again1 = utc_day now1 ->
  let first := updateStreak now1 now2 ls in
  1 <= fst first
  /\ streak_ok (snd first)
  /\ updateStreak again1 again2 (snd first) = first.
Proof.
  intros Hok Hday first. subst first. unfold updateStreak, streak_ok in *.
  destruct (bool_decide_reflect (lastVisit (getData ls) = Some (utc_day now1)))
    as [Hv|Hv].
  - cbn [fst snd]. split; [now apply num_or_pos|]. split; [exact Hok|].
    rewrite Hday. now rewrite bool_decide_eq_true_2.
  - cbn [fst snd setData getData spread lastVisit streak].
    set (k := if bool_decide _ then _ else _).
    assert (Hk : 1 <= k).
    { subst k. destruct (bool_decide _); [|lia].
      pose proof (num_or_pos _ Hok). lia. }
    split; [exact Hk|]. split; [exact Hk|].
    rewrite Hday, bool_decide_eq_true_2 by reflexivity.
    now rewrite num_or_same.
Qed.

Lemma updateStreak_same_day_witness :
  updateStreak 86400001 86400002 None
  = (1, Some {| lastVisit := Some 1; streak := Some 1; totalSwiped := None;
                visitCount := None; hasVisited := None; savedCards := None;
                cachedCards := None |})
  /\ updateStreak 172799999 172799999 (snd (updateStreak 86400001 86400002 None))
     = updateStreak 86400001 86400002 None.
Proof.
  split; [reflexivity|].
  apply (updateStreak_same_day 86400001 86400002 172799999 172799999 None).
  - exact I.
  - reflexivity.
Defined.







(** ** Saved cards *)

Lemma find_id_none (item : jsstring) (saved : list saved_card) :
  List.find (fun c => bool_decide (id (copy c) = item)) saved = None
  <-> ~ In item (map (fun c => id (copy c)) saved).
Proof.
  induction saved as [|c saved IH]; simpl; [tauto|].
  destruct (bool_decide_reflect (id (copy c) = item)) as [E|E].
  - split; [discriminate|]. intros H. exfalso. apply H. now left.
  - rewrite IH. tauto.
Qed.

(** X22. [saveCard] returns [false] exactly when a card with the same id is
    already saved, and then it writes nothing; otherwise it appends one
    entry for the card behind those saved before.  Either way, saved ids
    that were distinct stay distinct. *)
Theorem saveCard_keeps_ids_unique (item : card) (now : Z) (ls : Storage) :
  NoDup (saved_ids ls) ->
  let result := saveCard item now ls in
  NoDup (saved_ids (snd result))
  /\ (In (id item) (saved_ids ls) ->
        result = (false, ls))
  /\ (~ In (id item) (saved_ids ls) ->
        fst result = true
        /\ saved_ids (snd result) = saved_ids ls ++ [id item]
        /\ exists entry : saved_card,
             getSavedCards (snd result) = getSavedCards ls ++ [entry]
             /\ saved_at entry = now
             /\ title (copy entry) = title item
             /\ body (copy entry) = body item).
Proof.
  intros Hnd result. subst result. unfold saveCard, saved_ids in *.
  destruct (List.find _ (getSavedCards ls)) as [found|] eqn:F.
  - split; [exact Hnd|]. split; [reflexivity|].
    intros Hnot. apply find_id_none in Hnot. congruence.
  - apply find_id_none in F.
    assert (G : forall entry,
              getSavedCards
                (setData {| lastVisit := None; streak := None;
                            totalSwiped := None; visitCount := None;
                            hasVisited := None;
                            savedCards := Some (getSavedCards ls ++ [entry]);
                            cachedCards := None |} ls)
              = getSavedCards ls ++ [entry]) by reflexivity.
    cbn [fst snd]. rewrite G. rewrite map_app. cbn [map copy id].
    split; [|split; [contradiction|]].
    + apply NoDup_app. split; [exact Hnd|]. split.
      * intros x Hx [E|[]]%list_elem_of_In. subst x.
        apply F. now apply list_elem_of_In.
      * apply NoDup_singleton.
    + intros _. split; [reflexivity|]. split; [reflexivity|].
      eexists. split; [reflexivity|]. repeat split.
Qed.

Lemma saveCard_keeps_ids_unique_witness :
  fst (saveCard (List.hd (Build_card [] None None None None None None None None)
                   getDemoCards) 5 None) = true
  /\ NoDup (saved_ids (snd (saveCard
                              (List.hd (Build_card [] None None None None None
                                          None None None) getDemoCards)
                              5 None))).
Proof.
  split; [reflexivity|].
  apply (saveCard_keeps_ids_unique _ 5 None). constructor.
Defined.

(** X23. Saving the same card a second time changes nothing: the second
    call returns [false] and leaves the storage of the first. *)
Theorem saveCard_twice (item : card) (now later : Z) (ls : Storage) :
  let once := snd (saveCard item now ls) in
  saveCard item later once = (false, once).
Proof.
  intros once.
  assert (Hin : In (id item) (saved_ids once)).
  { subst once. unfold saveCard, saved_ids.
    destruct (List.find _ (getSavedCards ls)) as [found|] eqn:F.
    - cbn [snd]. apply List.find_some in F as [Hin E].
      apply bool_decide_eq_true_1 in E. rewrite <- E.
      apply in_map_iff. now exists found.
    - cbn. rewrite map_app. apply in_or_app. right. now left. }
  unfold saveCard.
  match goal with
  | |- context [List.find ?f ?l] => destruct (List.find f l) eqn:F
  end; [reflexivity|].
  apply find_id_none in F. contradiction.
Qed.

(** ** Visits and swipes *)

Lemma incrementVisitCount_fst (ls : Storage) :
  fst (incrementVisitCount ls) = getVisitCount ls + 1.
Proof. reflexivity. Qed.

(** X24. [incrementVisitCount] counts: with nothing stored the first call
    returns 1, and each call returns one more than the call before, so
    only the first visit is a first visit. *)
Theorem incrementVisitCount_counts (n : nat) :
  let ls := Nat.iter n (fun ls => snd (incrementVisitCount ls)) None in
  getVisitCount ls = Z.of_nat n
  /\ fst (incrementVisitCount ls) = Z.of_nat n + 1.
Proof.
  cbv zeta. induction n as [|n [IH1 IH2]]; [split; reflexivity|].
  cbn [Nat.iter]. set (ls := Nat.iter n _ None) in *.
  assert (G : getVisitCount (snd (incrementVisitCount ls)) = Z.of_nat (S n)).
  { unfold incrementVisitCount in *. cbn [fst snd] in *.
    unfold getVisitCount at 1. cbn. rewrite IH2.
    destruct (Z.eqb_spec (Z.of_nat n + 1) 0); lia. }
  split; [exact G|].
  rewrite incrementVisitCount_fst.
  change (getVisitCount (snd (incrementVisitCount ls)) + 1 = Z.of_nat (S n) + 1).
  now rewrite G.
Qed.

(** X25. Swipes, visits and streak updates leave the saved cards and the
    cached deck as they are, and saving a card leaves the counters and the
    streak as they are. *)
Theorem storage_keys_apart (item : card) (now1 now2 : Z) (ls : Storage) :
  let kept (ls' : Storage) :=
    savedCards (getData ls') = savedCards (getData ls)
    /\ cachedCards (getData ls') = cachedCards (getData ls) in
  kept (trackSwipe ls)
  /\ kept (snd (incrementVisitCount ls))
  /\ kept (snd (updateStreak now1 now2 ls))
  /\ (let ls' := snd (saveCard item now1 ls) in
      streak (getData ls') = streak (getData ls)
      /\ lastVisit (getData ls') = lastVisit (getData ls)
      /\ totalSwiped (getData ls') = totalSwiped (getData ls)
      /\ visitCount (getData ls') = visitCount (getData ls)
      /\ cachedCards (getData ls') = cachedCards (getData ls)).
Proof.
  intros kept. subst kept. cbn beta.
  split; [split; reflexivity|]. split; [split; reflexivity|]. split.
  - unfold updateStreak. destruct (bool_decide _); split; reflexivity.
  - unfold saveCard. destruct (List.find _ _); repeat split.
Qed.

(** ** Loading the deck *)

(** X26. [loadCards] never returns an empty deck, whatever the network does
    and whatever is stored. *)
Theorem loadCards_never_empty (net : fetched) (ls : Storage) :
  fst (fst (loadCards net ls)) <> [].
Proof.
  unfold loadCards.
  destruct net as [| |data]; cbn.
  - destruct (cachedCards (getData ls)) as [[[[|c r]|]]|]; cbn; discriminate.
  - destruct (cachedCards (getData ls)) as [[[[|c r]|]]|]; cbn; discriminate.
  - destruct (cards data) as [[|c r]|] eqn:E; cbn; try discriminate;
      rewrite ?E; cbn; discriminate.
Qed.

(** X27. A deck fetched once is the deck of later offline loads: after a
    successful load of a non-empty deck, a load whose fetch throws or is
    refused returns that same deck, flags it as offline and writes
    nothing. *)
Theorem loadCards_offline_round_trip (data : payload) (c : card)
    (rest : list card) (later : fetched) (ls : Storage) :
  cards data = Some (c :: rest) ->
  later = fetch_throws \/ later = fetch_not_ok ->
  let online := loadCards (fetch_ok data) ls in
  fst online = (c :: rest, false)
  /\ loadCards later (snd online) = (c :: rest, true, snd online).
Proof.
  intros E Hlater online. subst online. unfold loadCards.
  cbn. rewrite E. cbn. split; [reflexivity|].
  destruct Hlater as [->| ->]; cbn; rewrite E; reflexivity.
Qed.

Lemma loadCards_offline_round_trip_witness :
  loadCards fetch_throws
    (snd (loadCards (fetch_ok {| cards := Some (List.tl getDemoCards) |}) None))
  = (List.tl getDemoCards, true,
     snd (loadCards (fetch_ok {| cards := Some (List.tl getDemoCards) |}) None)).
Proof.
  apply (loadCards_offline_round_trip
           {| cards := Some (List.tl getDemoCards) |}
           _ _ fetch_throws None).
  - reflexivity.
  - left. reflexivity.
Defined.

(** X28. A successful response that carries no deck, or an empty one,
    replaces what was cached: that load and every later offline load fall
    back to the demo cards, whatever deck had been cached before. *)
Theorem loadCards_empty_response (data : payload) (later : fetched)
    (ls : Storage) :
  cards data = None \/ cards data = Some [] ->
  later = fetch_throws \/ later = fetch_not_ok ->
  let online := loadCards (fetch_ok data) ls in
  fst (fst online) = getDemoCards
  /\ cachedCards (getData (snd online)) = Some data
  /\ fst (fst (loadCards later (snd online))) = getDemoCards.
Proof.
  intros E Hlater online. subst online. unfold loadCards. cbn.
  destruct E as [E|E]; rewrite E; cbn; rewrite ?E; cbn;
    (split; [reflexivity|]); (split; [reflexivity|]);
    destruct Hlater as [->| ->]; cbn; rewrite E; reflexivity.
Qed.

Lemma loadCards_empty_response_witness :
  fst (fst (loadCards fetch_not_ok
              (snd (loadCards (fetch_ok {| cards := Some [] |})
                      (snd (loadCards
                              (fetch_ok {| cards := Some (List.tl getDemoCards) |})
                              None))))))
  = getDemoCards.
Proof.
  apply (loadCards_empty_response {| cards := Some [] |} fetch_not_ok).
  - right. reflexivity.
  - right. reflexivity.
Defined.

(** * Properties of the service worker *)

Import ServiceWorker.

Lemma cache_match_put (req : request) (r : response) (cache : Cache) :
  cache_match req ((href req, r) :: cache) = Some r.
Proof. simpl. now rewrite String.eqb_refl. Qed.

(** Once put, a response is what [caches.match] finds, unless a cache
    created before [CACHE_NAME] holds the request. *)
Lemma caches_match_open_put (req : request) (r : response) (st : CacheStorage) :
  Forall (fun entry => fst entry <> CACHE_NAME ->
                       cache_match req (snd entry) = None) st ->
  caches_match req (open_put CACHE_NAME req r st) = Some r.
Proof.
  induction 1 as [|[n cache] st Hn _ IH]; simpl.
  - now rewrite String.eqb_refl.
  - destruct (String.eqb_spec n CACHE_NAME) as [->|Hne].
    + cbn [caches_match]. now rewrite cache_match_put.
    + cbn [caches_match]. simpl in Hn. now rewrite (Hn Hne).
Qed.


Lemma activate_only_current (req : request) (st : CacheStorage) :
  Forall (fun entry => fst entry <> CACHE_NAME ->
                       cache_match req (snd entry) = None) (activate st).
Proof.
  unfold activate. induction st as [|[n cache] st IH]; simpl; [constructor|].
  destruct (String.eqb_spec n CACHE_NAME) as [->|Hne]; [|exact IH].
  constructor; [|exact IH]. simpl. congruence.
Qed.




(** X30. Network first, after activation: an ok response that was fetched is
    the one served when the network fails later; when nothing was ever
    stored for the request the answer is the empty deck with status 200. *)
Theorem networkFirst_round_trip (req : request) (r : response)
    (st : CacheStorage) :
  ok r = true ->
  let online := networkFirst req (resolves r) (activate st) in
  fst online = r
  /\ networkFirst req rejects (snd online) = (r, snd online)
  /\ (caches_match req st = None ->
        networkFirst req rejects st = (empty_deck_response, st)).
Proof.
  intros Hok online. subst online. unfold networkFirst, fetch_and_store.
  rewrite Hok. cbn [fst snd].
  split; [reflexivity|]. split.
  - rewrite caches_match_open_put by apply activate_only_current. reflexivity.
  - intros ->. reflexivity.
Qed.

Lemma networkFirst_round_trip_witness :
  fst (networkFirst
         {| href := "/data/latest.json"; hostname := "host";
            pathname := "/data/latest.json" |}
         rejects
         (snd (networkFirst
                 {| href := "/data/latest.json"; hostname := "host";
                    pathname := "/data/latest.json" |}
                 (resolves {| status := 200; content_type := None; text := "{}" |})
                 (activate [("afg-v3"%string, [])]))))
  = {| status := 200; content_type := None; text := "{}" |}.
Proof.
  destruct (networkFirst_round_trip
              {| href := "/data/latest.json"; hostname := "host";
                 pathname := "/data/latest.json" |}
              {| status := 200; content_type := None; text := "{}" |}
              [("afg-v3"%string, [])]) as (_ & Served & _).
  - reflexivity.
  - rewrite Served. reflexivity.
Defined.
